(** * dongguaTV CORS proxy: shallow embedding and verification

    The repository ships the same reverse proxy twice: a Node.js server
    ([proxy-server.js]) and a Cloudflare Workers script.  Both share the
    playlist rewriter ([rewriteM3u8], [resolveUrl]) verbatim and differ in
    the HTTP layer around it.  This development embeds

    - the JavaScript string primitives the code calls ([JS]),
    - the playlist rewriter ([Rewriter]),
    - the Workers request handler ([Workers]),
    - the Node request handler ([Node]),

    and proves the properties of the design document about them.  The
    two scripts shipped next to the proxy are embedded as well: the TMDB
    proxy ([Tmdb]) and the page's service worker ([ServiceWorker]). *)

From Stdlib Require Import List NArith ZArith Lia Bool String Ascii.
From stdpp Require Import gmap list option.
From Equations Require Import Equations.
Import ListNotations.

(** ** JavaScript strings

    A JavaScript string is a finite sequence of UTF-16 code units.  The
    built-ins below follow ECMA-262; only the ones the proxy calls are
    modelled. *)

Module JS.

Abbreviation jsstring := (list N).

(** String literals of the source, written with Rocq strings. *)
Definition lit (s : string) : jsstring :=
  List.map N_of_ascii (list_ascii_of_string s).
Global Arguments lit : simpl never.

Definition LF : N := 10.
Definition QUOTE : N := 34.
Definition HASH : N := 35.
Definition PERCENT : N := 37.
Definition SLASH : N := 47.

(** [s.startsWith(searchString)] *)
Fixpoint startsWith (s searchString : jsstring) {struct searchString} : bool :=
  match searchString, s with
  | [], _ => true
  | p :: ps, c :: cs => (c =? p)%N && startsWith cs ps
  | _ :: _, [] => false
  end.

(** [s.includes(searchString)] *)
Fixpoint includes (s searchString : jsstring) : bool :=
  startsWith s searchString
  || match s with
     | [] => false
     | _ :: s' => includes s' searchString
     end.

(** [s === t] on strings *)
Fixpoint strictEquals (s t : jsstring) : bool :=
  match s, t with
  | [], [] => true
  | c :: s', d :: t' => (c =? d)%N && strictEquals s' t'
  | _, _ => false
  end.

(** WhiteSpace and LineTerminator code points (ECMA-262, 12.2 and 12.3),
    the set stripped by [String.prototype.trim]. *)
Definition isWhiteSpace (c : N) : bool :=
  ((9 <=? c) && (c <=? 13) || (c =? 32) || (c =? 160) || (c =? 5760)
   || (8192 <=? c) && (c <=? 8202) || (c =? 8232) || (c =? 8233)
   || (c =? 8239) || (c =? 8287) || (c =? 12288) || (c =? 65279))%N.

Fixpoint trimStart (s : jsstring) : jsstring :=
  match s with
  | [] => []
  | c :: s' => if isWhiteSpace c then trimStart s' else s
  end.

Definition trimEnd (s : jsstring) : jsstring := rev (trimStart (rev s)).

(** [s.trim()] *)
Definition trim (s : jsstring) : jsstring := trimEnd (trimStart s).

(** [s.split(sep)] for a one-code-unit separator: never returns the
    empty array. *)
Fixpoint split (s : jsstring) (sep : N) : list jsstring :=
  match s with
  | [] => [[]]
  | c :: s' =>
      if (c =? sep)%N then [] :: split s' sep
      else match split s' sep with
           | [] => [[c]]
           | l :: ls => (c :: l) :: ls
           end
  end.

(** [a.join(sep)] on an array of strings *)
Fixpoint join (a : list jsstring) (sep : jsstring) : jsstring :=
  match a with
  | [] => []
  | [l] => l
  | l :: a' => l ++ sep ++ join a' sep
  end.

(** [s.lastIndexOf(c)] for a one-code-unit needle; [-1] when absent. *)
Fixpoint lastIndexOf_from (s : jsstring) (c : N) (i : Z) (found : Z) : Z :=
  match s with
  | [] => found
  | d :: s' => lastIndexOf_from s' c (i + 1) (if (d =? c)%N then i else found)
  end.

Definition lastIndexOf (s : jsstring) (c : N) : Z :=
  lastIndexOf_from s c 0 (-1).

(** [s.substring(start, end)]: both indices are clamped to [0, length]
    and swapped when out of order. *)
Definition substring (s : jsstring) (start end_ : Z) : jsstring :=
  let len := Z.of_nat (length s) in
  let a := Z.min (Z.max start 0) len in
  let b := Z.min (Z.max end_ 0) len in
  let from := Z.min a b in
  let to := Z.max a b in
  firstn (Z.to_nat (to - from)) (skipn (Z.to_nat from) s).

(** ASCII lower-casing.  Header names are HTTP tokens, hence ASCII, and
    on ASCII [toLowerCase] is this map. *)
Definition lowerUnit (c : N) : N :=
  if ((65 <=? c) && (c <=? 90))%N then (c + 32)%N else c.

Definition toLowerCase (s : jsstring) : jsstring := List.map lowerUnit s.

(** *** encodeURIComponent

    ECMA-262 19.2.6.5 [Encode] with the unreserved set of
    [encodeURIComponent]: letters, digits and [-_.!~*'()].  Every other
    code point is written as the percent-escaped octets of its UTF-8
    encoding; an unpaired surrogate raises [URIError], modelled by
    [None]. *)

Definition isAlpha (c : N) : bool :=
  ((65 <=? c) && (c <=? 90) || (97 <=? c) && (c <=? 122))%N.

Definition isDigit (c : N) : bool := ((48 <=? c) && (c <=? 57))%N.

(** The marks [-_.!~*'()] of the unreserved set. *)
Definition UNRESERVED_MARKS : jsstring :=
  Eval vm_compute in lit "-_.!~*'()".

Definition isUnreserved (c : N) : bool :=
  isAlpha c || isDigit c || existsb (N.eqb c) UNRESERVED_MARKS.

Definition isHighSurrogate (c : N) : bool := ((55296 <=? c) && (c <=? 56319))%N.
Definition isLowSurrogate (c : N) : bool := ((56320 <=? c) && (c <=? 57343))%N.

(** Code point of a surrogate pair. *)
Definition pairCodePoint (hi lo : N) : N :=
  ((hi - 55296) * 1024 + (lo - 56320) + 65536)%N.

Definition utf8 (cp : N) : list N :=
  if (cp <? 128)%N then [cp]
  else if (cp <? 2048)%N then [192 + cp / 64; 128 + cp mod 64]%N
  else if (cp <? 65536)%N then
    [224 + cp / 4096; 128 + (cp / 64) mod 64; 128 + cp mod 64]%N
  else
    [240 + cp / 262144; 128 + (cp / 4096) mod 64;
     128 + (cp / 64) mod 64; 128 + cp mod 64]%N.

Definition hexDigit (n : N) : N :=
  if (n <? 10)%N then (48 + n)%N else (55 + n)%N.

(** An octet as a percent sign and its two upper-case hex digits. *)
Definition percentOctet (b : N) : jsstring :=
  [PERCENT; hexDigit ((b / 16) mod 16); hexDigit (b mod 16)].

Definition percentOctets (bs : list N) : jsstring :=
  flat_map percentOctet bs.

Fixpoint encodeURIComponent (s : jsstring) : option jsstring :=
  match s with
  | [] => Some []
  | c :: s' =>
      if isUnreserved c then cons c <$> encodeURIComponent s'
      else if isLowSurrogate c then None
      else if isHighSurrogate c then
        match s' with
        | d :: s'' =>
            if isLowSurrogate d
            then app (percentOctets (utf8 (pairCodePoint c d)))
                   <$> encodeURIComponent s''
            else None
        | [] => None
        end
      else app (percentOctets (utf8 c)) <$> encodeURIComponent s'
  end.

(** Well-formed UTF-16: every surrogate is half of a pair.  Text decoded
    from bytes ([Response.text()], [Buffer.toString('utf8')]) is always
    well formed. *)
Fixpoint wellFormed (s : jsstring) : bool :=
  match s with
  | [] => true
  | c :: s' =>
      if isLowSurrogate c then false
      else if isHighSurrogate c then
        match s' with
        | d :: s'' => isLowSurrogate d && wellFormed s''
        | [] => false
        end
      else wellFormed s'
  end.

Definition isSurrogate (c : N) : bool := isHighSurrogate c || isLowSurrogate c.

(** *** The regular expression of the key-URI attribute

    The source pattern is: the five code units U R I = quote, then a
    capture group of one or more code units other than the quote, then a
    quote; flag g.  [URI_ATTR] is the literal prefix of the pattern, which
    is also the needle of [trimmedLine.includes(...)]. *)

Definition URI_ATTR : jsstring := lit "URI=" ++ [QUOTE].

(** Longest run of code units other than the quote, and what follows. *)
Fixpoint spanNotQuote (s : jsstring) : jsstring * jsstring :=
  match s with
  | [] => ([], [])
  | c :: s' =>
      if (c =? QUOTE)%N then ([], s)
      else let '(v, r) := spanNotQuote s' in (c :: v, r)
  end.

(** The pattern anchored at the start of [s]: the capture group and the
    text after the match.  The greedy class takes the whole quote-free
    run; the match succeeds when that run is not empty and a quote
    follows (no shorter run can be followed by a quote). *)
Definition matchURI (s : jsstring) : option (jsstring * jsstring) :=
  if startsWith s URI_ATTR then
    match spanNotQuote (skipn (length URI_ATTR) s) with
    | ((_ :: _) as uri, _ :: rest) => Some (uri, rest)
    | _ => None
    end
  else None.

Definition inspect {A} (a : A) : {b | a = b} := exist _ a eq_refl.

(** [s.replace(pattern, (match, uri) => replacer(uri))] for the pattern
    above: the matches are found left to right without overlap, each is
    replaced by what the callback returns (inserted literally), and an
    exception of the callback ([None]) aborts the call. *)
Equations? replaceURI (replacer : jsstring -> option jsstring) (s : jsstring)
  : option jsstring by wf (length s) lt :=
  replaceURI replacer [] := Some [];
  replaceURI replacer (c :: s') with inspect (matchURI (c :: s')) := {
    | exist _ (Some (uri, rest)) Hm =>
        r ← replacer uri; t ← replaceURI replacer rest; Some (r ++ t)
    | exist _ None _ => cons c <$> replaceURI replacer s' }.
Proof.
  (* the text after a match is shorter than the text it was found in *)
  clear replaceURI.
  assert (Hspan : forall t, (length (spanNotQuote t).2 <= length t)%nat).
  { induction t as [|d t IH]; simpl; [lia|].
    destruct (d =? QUOTE)%N; simpl; [lia|].
    destruct (spanNotQuote t); simpl in *; lia. }
  unfold matchURI in Hm.
  destruct (startsWith (c :: s') URI_ATTR); [|discriminate].
  specialize (Hspan (skipn (length URI_ATTR) (c :: s'))).
  destruct (spanNotQuote _) as [[|u us] [|q after]]; try discriminate.
  injection Hm as <- <-. simpl in Hspan |- *. rewrite length_skipn in Hspan.
  simpl in Hspan. lia.
Qed.

(** [s.endsWith(searchString)] *)
Definition endsWith (s searchString : jsstring) : bool :=
  startsWith (rev s) (rev searchString).

(** A string is falsy exactly when it is empty. *)
Definition truthy (s : jsstring) : bool := negb (strictEquals s []).

(** *** JSON.stringify on a string (ECMA-262 25.5.2.3 QuoteJSONString) *)

Definition hexLower (n : N) : N :=
  if (n <? 10)%N then (48 + n)%N else (87 + n)%N.

Definition unicodeEscape (c : N) : jsstring :=
  [92; 117; hexLower (c / 4096); hexLower ((c / 256) mod 16);
   hexLower ((c / 16) mod 16); hexLower (c mod 16)]%N.

Fixpoint quoteJSONUnits (s : jsstring) : jsstring :=
  match s with
  | [] => []
  | c :: s' =>
      if (c =? 8)%N then [92; 98]%N ++ quoteJSONUnits s'
      else if (c =? 9)%N then [92; 116]%N ++ quoteJSONUnits s'
      else if (c =? 10)%N then [92; 110]%N ++ quoteJSONUnits s'
      else if (c =? 12)%N then [92; 102]%N ++ quoteJSONUnits s'
      else if (c =? 13)%N then [92; 114]%N ++ quoteJSONUnits s'
      else if (c =? 34)%N then [92; 34]%N ++ quoteJSONUnits s'
      else if (c =? 92)%N then [92; 92]%N ++ quoteJSONUnits s'
      else if (c <? 32)%N then unicodeEscape c ++ quoteJSONUnits s'
      else if isLowSurrogate c then unicodeEscape c ++ quoteJSONUnits s'
      else if isHighSurrogate c then
        match s' with
        | d :: s'' =>
            if isLowSurrogate d then c :: d :: quoteJSONUnits s''
            else unicodeEscape c ++ quoteJSONUnits s'
        | [] => unicodeEscape c
        end
      else c :: quoteJSONUnits s'
  end.

Definition quoteJSONString (s : jsstring) : jsstring :=
  [QUOTE] ++ quoteJSONUnits s ++ [QUOTE].

End JS.

Import JS.

(** ** Parsed URLs

    The fields of a WHATWG [URL] object the proxy reads.  The parser
    itself belongs to the runtime. *)

Record URL := mkURL {
  href : jsstring;      (* [toString()] *)
  protocol : jsstring;  (* scheme with its colon *)
  origin : jsstring;
  pathname : jsstring
}.

(** ** The playlist rewriter

    [rewriteM3u8] and [resolveUrl] are the same text in both variants. *)

Module Rewriter.

Definition resolveUrl (url baseOrigin basePath : jsstring) : jsstring :=
  if startsWith url (lit "http://") || startsWith url (lit "https://")
  then url
  else if startsWith url (lit "//") then lit "https:" ++ url
  else if startsWith url (lit "/") then baseOrigin ++ url
  else baseOrigin ++ basePath ++ url.

(** The proxied form of an absolute URL:
    [proxyOrigin + "/?url=" + encodeURIComponent(absoluteUrl)]. *)
Definition proxied (proxyOrigin absoluteUrl : jsstring) : option jsstring :=
  e ← encodeURIComponent absoluteUrl; Some (proxyOrigin ++ lit "/?url=" ++ e).

(** The callback of [line.replace]: the whole match is replaced by the
    attribute with the proxied URL between the quotes. *)
Definition replaceKeyUri (baseOrigin basePath proxyOrigin uri : jsstring)
  : option jsstring :=
  let absoluteUrl := resolveUrl uri baseOrigin basePath in
  p ← proxied proxyOrigin absoluteUrl; Some (URI_ATTR ++ p ++ [QUOTE]).

(** [trimmedLine.startsWith('#') || trimmedLine === ''] *)
Definition isDirective (trimmedLine : jsstring) : bool :=
  startsWith trimmedLine [HASH] || strictEquals trimmedLine [].

(** The callback of [lines.map]. *)
Definition rewriteLine (baseOrigin basePath proxyOrigin line : jsstring)
  : option jsstring :=
  let trimmedLine := trim line in
  if isDirective trimmedLine then
    if includes trimmedLine URI_ATTR
    then replaceURI (replaceKeyUri baseOrigin basePath proxyOrigin) line
    else Some line
  else
    let absoluteUrl := resolveUrl trimmedLine baseOrigin basePath in
    proxied proxyOrigin absoluteUrl.

Definition basePathOf (baseUrl : URL) : jsstring :=
  substring (pathname baseUrl) 0 (lastIndexOf (pathname baseUrl) SLASH + 1).

Definition rewriteM3u8 (content : jsstring) (baseUrl : URL)
    (proxyOrigin : jsstring) : option jsstring :=
  let lines := split content LF in
  let baseOrigin := origin baseUrl in
  let basePath := basePathOf baseUrl in
  outs ← mapM (rewriteLine baseOrigin basePath proxyOrigin) lines;
  Some (join outs [LF]).

End Rewriter.

Import Rewriter.

(** ** Values shared by the two HTTP layers *)

(** [CORS_HEADERS], the same object literal in both variants. *)
Definition CORS_HEADERS : list (jsstring * jsstring) :=
  [ (lit "Access-Control-Allow-Origin", lit "*");
    (lit "Access-Control-Allow-Methods",
     lit "GET, POST, PUT, DELETE, OPTIONS, HEAD");
    (lit "Access-Control-Allow-Headers",
     lit "Content-Type, Authorization, Range");
    (lit "Access-Control-Expose-Headers", lit "Content-Length, Content-Range");
    (lit "Access-Control-Max-Age", lit "86400") ].

Definition USER_AGENT : jsstring :=
  lit "Mozilla/5.0 (Windows NT 10.0; Win64; x64) AppleWebKit/537.36 (KHTML, like Gecko) Chrome/120.0.0.0 Safari/537.36".

(** The three inbound headers copied upstream. *)
Definition copyHeaders : list jsstring :=
  [lit "range"; lit "accept"; lit "accept-language"].

Definition M3U8_CONTENT_TYPE : jsstring := lit "application/vnd.apple.mpegurl".

(** The upstream wait bound, in milliseconds. *)
Definition TIMEOUT_MS : N := 20000.

(** The message V8 gives the [URIError] of [encodeURIComponent]. *)
Definition URI_MALFORMED : jsstring := lit "URI malformed".

(** A response body: nothing, text written by the proxy, the origin's
    payload piped through untouched, or the help page. *)
Inductive Body :=
| NoBody
| Text (s : jsstring)
| Piped (payload : jsstring)
| HelpPage (html : jsstring).

(** [targetURL.pathname.endsWith('.m3u8') || contentType.includes('mpegurl')
    || contentType.includes('x-mpegurl')] *)
Definition isM3u8 (targetURL : URL) (contentType : jsstring) : bool :=
  endsWith (pathname targetURL) (lit ".m3u8")
  || includes contentType (lit "mpegurl")
  || includes contentType (lit "x-mpegurl").

(** ** The Workers variant *)

Module Workers.

(** A [Headers] object: names are case-insensitive, stored lower-cased. *)
Abbreviation Headers := (gmap jsstring jsstring).

Definition headers_set (h : Headers) (name value : jsstring) : Headers :=
  <[toLowerCase name := value]> h.

Definition headers_get (h : Headers) (name : jsstring) : option jsstring :=
  h !! toLowerCase name.

Definition headers_has (h : Headers) (name : jsstring) : bool :=
  bool_decide (is_Some (h !! toLowerCase name)).

Definition headers_delete (h : Headers) (name : jsstring) : Headers :=
  delete (toLowerCase name) h.

(** [new Headers(init)] for an object literal with distinct names. *)
Definition headers_init (init : list (jsstring * jsstring)) : Headers :=
  foldl (fun h kv => headers_set h kv.1 kv.2) ∅ init.

(** The inbound request: [request.url] is given parsed, with the value of
    [searchParams.get('url')] ([None] for [null]). *)
Record Request := mkRequest {
  req_method : jsstring;
  req_url : URL;
  req_searchParam_url : option jsstring;
  req_headers : Headers;
  req_body : jsstring
}.

(** A response as the script builds it with [new Response(body, init)].
    [res_statusText] is [Some] of the text a reply of the network came
    with, and [None] for the runtime's default text for the status
    (empty by the Fetch standard, the reason phrase on workerd): the
    script gave no [init.statusText], or copied the text of such a
    response. *)
Record Response := mkResponse {
  res_body : Body;
  res_status : N;
  res_statusText : option jsstring;
  res_headers : Headers
}.

(** The headers of a response built on a string with [init.headers]:
    when these name no [Content-Type], the constructor adds the type of a
    string body (Fetch, initialize a response). *)
Definition textHeaders (init : list (jsstring * jsstring)) : Headers :=
  let headers := headers_init init in
  if headers_has headers (lit "Content-Type") then headers
  else headers_set headers (lit "Content-Type")
         (lit "text/plain;charset=UTF-8").

(** The request sent upstream, [new Request(targetURL.toString(), init)]. *)
Record ProxyRequest := mkProxyRequest {
  pr_url : jsstring;
  pr_method : jsstring;
  pr_headers : Headers;
  pr_body : option jsstring
}.

(** The origin's reply as [fetch] resolves it: [fr_headers] is the
    sequence the iterator of [response.headers] yields and [fr_text] the
    decoded body. *)
Record FetchResponse := mkFetchResponse {
  fr_status : N;
  fr_statusText : jsstring;
  fr_headers : list (jsstring * jsstring);
  fr_text : jsstring
}.

(** [response.ok] *)
Definition fr_ok (r : FetchResponse) : bool :=
  ((200 <=? fr_status r) && (fr_status r <=? 299))%N.

(** [response.headers.get(name)] *)
Definition fr_get (r : FetchResponse) (name : jsstring) : option jsstring :=
  snd <$> List.find (fun kv => strictEquals (toLowerCase kv.1) (toLowerCase name))
            (fr_headers r).

(** What the origin does with a request: it answers after [ms]
    milliseconds, the connection fails after [ms] milliseconds, or nothing
    ever comes back. *)
Inductive Upstream :=
| Replies (ms : N) (response : FetchResponse)
| Fails (ms : N) (message : jsstring)
| Silent.

(** The settled [fetch] promise; a rejection carries [err.name] and
    [err.message]. *)
Inductive FetchResult :=
| Resolved (response : FetchResponse)
| Rejected (name message : jsstring).

Definition AbortError : FetchResult :=
  Rejected (lit "AbortError") (lit "The operation was aborted").

(** [fetch(proxyRequest, { signal })] raced against
    [setTimeout(() => controller.abort(), 20000)]: whichever event comes
    first settles the promise, and the abort rejects it with an
    [AbortError]. *)
Definition fetchWithAbort (u : Upstream) : FetchResult :=
  match u with
  | Replies ms r => if (ms <? TIMEOUT_MS)%N then Resolved r else AbortError
  | Fails ms m =>
      if (ms <? TIMEOUT_MS)%N then Rejected (lit "TypeError") m else AbortError
  | Silent => AbortError
  end.

(** [JSON.stringify({ error })] *)
Definition errorJSON (error : jsstring) : jsstring :=
  lit "{" ++ quoteJSONString (lit "error") ++ lit ":"
  ++ quoteJSONString error ++ lit "}".

Definition errorResponse (error : jsstring) (status : N) : Response :=
  {| res_body := Text (errorJSON error);
     res_status := status;
     res_statusText := None;
     res_headers :=
       headers_init
         ((lit "Content-Type", lit "application/json; charset=utf-8")
          :: CORS_HEADERS) |}.

(** The test [/^https?:\/\//i.test(s)]: without the u flag a code unit
    above 127 never folds to an ASCII letter, so the match is ASCII
    case-insensitive. *)
Definition testHttpScheme (s : jsstring) : bool :=
  startsWith (toLowerCase s) (lit "http://")
  || startsWith (toLowerCase s) (lit "https://").

(** Lines 212-232 of [handleProxyRequest]: the headers of the upstream
    request. *)
Definition buildUpstreamHeaders (inbound : Headers) (targetURL : URL)
  : Headers :=
  let headers : Headers := ∅ in
  let headers := headers_set headers (lit "Referer") (origin targetURL ++ lit "/") in
  let headers := headers_set headers (lit "Origin") (origin targetURL) in
  let headers := headers_set headers (lit "User-Agent") USER_AGENT in
  let headers :=
    foldl (fun headers h =>
             match headers_get inbound h with
             | Some val => if truthy val then headers_set headers h val else headers
             | None => headers
             end) headers copyHeaders in
  if headers_has headers (lit "accept") then headers
  else headers_set headers (lit "Accept") (lit "*/*").

(** The local [excludeHeaders] set of [handleProxyRequest]. *)
Definition excludeHeaders : list jsstring :=
  [ lit "access-control-allow-origin";
    lit "access-control-allow-methods";
    lit "access-control-allow-headers";
    lit "access-control-expose-headers";
    lit "access-control-max-age";
    lit "access-control-allow-credentials";
    lit "content-encoding";
    lit "transfer-encoding";
    lit "connection";
    lit "keep-alive" ].

(** [set.has(name)] *)
Definition setHas (set : list jsstring) (name : jsstring) : bool :=
  existsb (strictEquals name) set.

(** Lines 249-275 of [handleProxyRequest]: the origin's headers are copied
    unless excluded, then the CORS headers are set. *)
Definition buildDownstreamHeaders (originHeaders : list (jsstring * jsstring))
  : Headers :=
  let responseHeaders : Headers := ∅ in
  let responseHeaders :=
    foldl (fun responseHeaders kv =>
             if setHas excludeHeaders (toLowerCase kv.1) then responseHeaders
             else headers_set responseHeaders kv.1 kv.2)
          responseHeaders originHeaders in
  foldl (fun responseHeaders kv => headers_set responseHeaders kv.1 kv.2)
        responseHeaders CORS_HEADERS.

Definition isGetOrHead (method : jsstring) : bool :=
  strictEquals method (lit "GET") || strictEquals method (lit "HEAD").

(** Lines 212-240 of [handleProxyRequest]: the request sent upstream,
    with the inbound body for every method but GET and HEAD. *)
Definition buildProxyRequest (request : Request) (targetURL : URL)
  : ProxyRequest :=
  let headers := buildUpstreamHeaders (req_headers request) targetURL in
  {| pr_url := href targetURL;
     pr_method := req_method request;
     pr_headers := headers;
     pr_body := if isGetOrHead (req_method request) then None
                else Some (req_body request) |}.

Section Handlers.

(** [new URL(s)]: [None] when the constructor throws. *)
Variable parseURL : jsstring -> option URL.

(** The network as seen from the Worker. *)
Variable upstream : ProxyRequest -> Upstream.

(** The HTML of [getHelpPage(origin)]; its text is free-form. *)
Variable getHelpPage : jsstring -> jsstring.

Definition handleProxyRequest (request : Request)
    (targetUrlParam currentOrigin : jsstring) : Response :=
  if startsWith targetUrlParam currentOrigin then
    errorResponse (lit "Loop detected: self-fetch blocked") 400
  else if negb (testHttpScheme targetUrlParam) then
    errorResponse (lit "Invalid target URL") 400
  else
    match parseURL targetUrlParam with
    | None => errorResponse (lit "Invalid URL format") 400
    | Some targetURL =>
        let proxyRequest := buildProxyRequest request targetURL in
        match fetchWithAbort (upstream proxyRequest) with
        | Rejected name message =>
            let errorMsg :=
              if strictEquals name (lit "AbortError")
              then lit "Request timeout (20s)"
              else lit "Proxy Error: "
                   ++ (if truthy message then message
                       else [20195; 29702; 35831; 27714; 22833; 36133]%N) in
            errorResponse errorMsg 502
        | Resolved response =>
            let responseHeaders := buildDownstreamHeaders (fr_headers response) in
            let contentType := default [] (fr_get response (lit "content-type")) in
            if isM3u8 targetURL contentType && fr_ok response then
              match rewriteM3u8 (fr_text response) targetURL currentOrigin with
              | Some rewrittenContent =>
                  let responseHeaders :=
                    headers_set responseHeaders (lit "Content-Type")
                      M3U8_CONTENT_TYPE in
                  let responseHeaders :=
                    headers_delete responseHeaders (lit "Content-Length") in
                  {| res_body := Text rewrittenContent;
                     res_status := fr_status response;
                     res_statusText := Some (fr_statusText response);
                     res_headers := responseHeaders |}
              | None =>
                  errorResponse (lit "Proxy Error: " ++ URI_MALFORMED) 502
              end
            else
              {| res_body := Piped (fr_text response);
                 res_status := fr_status response;
                 res_statusText := Some (fr_statusText response);
                 res_headers := responseHeaders |}
        end
    end.

(** The reply of the branch [if (!targetUrlParam)]. *)
Definition helpResponse (reqUrl : URL) : Response :=
  {| res_body := HelpPage (getHelpPage (origin reqUrl));
     res_status := 200; res_statusText := None;
     res_headers :=
       headers_init
         ((lit "Content-Type", lit "text/html; charset=utf-8")
          :: CORS_HEADERS) |}.

Definition handleRequest (request : Request) : Response :=
  if strictEquals (req_method request) (lit "OPTIONS") then
    {| res_body := NoBody; res_status := 204; res_statusText := None;
       res_headers := headers_init CORS_HEADERS |}
  else
    let reqUrl := req_url request in
    let targetUrlParam := req_searchParam_url request in
    if strictEquals (pathname reqUrl) (lit "/health") then
      {| res_body := Text (lit "OK"); res_status := 200;
         res_statusText := None;
         res_headers := textHeaders CORS_HEADERS |}
    else
      match targetUrlParam with
      | Some targetUrlParam =>
          if truthy targetUrlParam
          then handleProxyRequest request targetUrlParam (origin reqUrl)
          else helpResponse reqUrl
      | None => helpResponse reqUrl
      end.

End Handlers.

End Workers.

(** ** The Node variant *)

Module Node.

(** A plain object with string values: property names are case-sensitive. *)
Abbreviation JSObject := (gmap jsstring jsstring).

(** An object literal, or a spread of one. *)
Definition objectOf (entries : list (jsstring * jsstring)) : JSObject :=
  foldl (fun o kv => <[kv.1 := kv.2]> o) ∅ entries.

Definition EXCLUDE_HEADERS : list jsstring :=
  [ lit "access-control-allow-origin";
    lit "access-control-allow-methods";
    lit "access-control-allow-headers";
    lit "access-control-expose-headers";
    lit "access-control-max-age";
    lit "access-control-allow-credentials";
    lit "content-encoding";
    lit "transfer-encoding";
    lit "connection";
    lit "keep-alive";
    lit "host" ].

Definition setHas (set : list jsstring) (name : jsstring) : bool :=
  existsb (strictEquals name) set.

(** What the handler reads of [reqUrl]: its [pathname] and the value of
    [searchParams.get('url')]. *)
Record ReqUrl := mkReqUrl {
  ru_pathname : jsstring;
  ru_searchParam_url : option jsstring
}.

(** The inbound [req].  [im_reqUrl] is what line 41,
    [new URL(req.url, `http://${req.headers.host}`)], gives for it:
    [None] when the constructor throws, as it does for a request target
    such as [//] or a Host header that is no host.  Node hands the header
    names in lower case. *)
Record IncomingMessage := mkIncoming {
  im_method : jsstring;
  im_reqUrl : option ReqUrl;
  im_headers : JSObject
}.

(** What [res.writeHead] and [res.end] or [pipe] send back. *)
Record ServerResponse := mkServerResponse {
  sr_statusCode : N;
  sr_headers : JSObject;
  sr_body : Body
}.

Record ProxyOptions := mkProxyOptions {
  po_method : jsstring;
  po_headers : JSObject;
  po_timeout : N
}.

(** The origin's reply [proxyRes]: its headers in key order and the
    decoded payload. *)
Record ProxyRes := mkProxyRes {
  pres_statusCode : N;
  pres_headers : list (jsstring * jsstring);
  pres_content : jsstring
}.

(** [proxyRes.headers[name]] *)
Definition pres_get (r : ProxyRes) (name : jsstring) : option jsstring :=
  snd <$> List.find (fun kv => strictEquals kv.1 name) (pres_headers r).

(** The events of the [ClientRequest] returned by [request()]. *)
Inductive ClientEvent :=
| EvResponse (proxyRes : ProxyRes)
| EvError (message : jsstring)
| EvTimeout.

Definition eventName (e : ClientEvent) : jsstring :=
  match e with
  | EvResponse _ => lit "response"
  | EvError _ => lit "error"
  | EvTimeout => lit "timeout"
  end.

(** The handler answers at once, or has issued the upstream request,
    whose events decide the answer, or throws: the listener is an async
    function, so an exception outside its [try] rejects a promise nobody
    handles; nothing is written to [res] and the rejection ends the
    process. *)
Inductive Outcome :=
| Replied (r : ServerResponse)
| Proxying (targetURL : URL) (options : ProxyOptions) (pipeBody : bool)
| Unhandled.

(** [`http://${req.headers.host}`] *)
Definition hostOrigin (req : IncomingMessage) : jsstring :=
  lit "http://" ++ default (lit "undefined") (im_headers req !! lit "host").

Definition getHelpPage (origin : jsstring) : jsstring :=
  lit "<h1>CORS Proxy Server</h1><p>Running on Node.js</p><pre>" ++ origin
  ++ lit "/?url=https://example.com/video.m3u8</pre>".

(** Lines 72-88: the options of the upstream request. *)
Definition buildProxyOptions (req : IncomingMessage) (targetURL : URL)
  : ProxyOptions :=
  let headers : JSObject := ∅ in
  let headers := <[lit "Referer" := origin targetURL ++ lit "/"]> headers in
  let headers := <[lit "Origin" := origin targetURL]> headers in
  let headers := <[lit "User-Agent" := USER_AGENT]> headers in
  let headers :=
    foldl (fun headers h =>
             match im_headers req !! h with
             | Some val => if truthy val then <[h := val]> headers else headers
             | None => headers
             end) headers copyHeaders in
  let headers :=
    match headers !! lit "Accept" with
    | Some val => if truthy val then headers
                  else <[lit "Accept" := lit "*/*"]> headers
    | None => <[lit "Accept" := lit "*/*"]> headers
    end in
  {| po_method := im_method req; po_headers := headers;
     po_timeout := TIMEOUT_MS |}.

(** Lines 95-102: the headers of the reply. *)
Definition buildResponseHeaders (originHeaders : list (jsstring * jsstring))
  : JSObject :=
  let responseHeaders := objectOf CORS_HEADERS in
  foldl (fun responseHeaders kv =>
           if setHas EXCLUDE_HEADERS (toLowerCase kv.1) then responseHeaders
           else <[kv.1 := kv.2]> responseHeaders)
        responseHeaders originHeaders.

Definition isGetOrHead (method : jsstring) : bool :=
  strictEquals method (lit "GET") || strictEquals method (lit "HEAD").

Section Server.

(** [process.env.PROXY_PASSWORD || ''] *)
Variable ACCESS_PASSWORD : jsstring.

(** [new URL(s)]: [None] when the constructor throws. *)
Variable parseURL : jsstring -> option URL.

(** The callback given to [request()], run on the response event. *)
Definition onResponse (req : IncomingMessage) (targetURL : URL)
    (proxyRes : ProxyRes) : ServerResponse :=
  let responseHeaders := buildResponseHeaders (pres_headers proxyRes) in
  let contentType := default [] (pres_get proxyRes (lit "content-type")) in
  if isM3u8 targetURL contentType && (pres_statusCode proxyRes =? 200)%N then
    let currentOrigin := hostOrigin req in
    match rewriteM3u8 (pres_content proxyRes) targetURL currentOrigin with
    | Some rewritten =>
        let responseHeaders :=
          <[lit "Content-Type" := M3U8_CONTENT_TYPE]> responseHeaders in
        let responseHeaders := delete (lit "content-length") responseHeaders in
        {| sr_statusCode := pres_statusCode proxyRes;
           sr_headers := responseHeaders;
           sr_body := Text rewritten |}
    | None =>
        {| sr_statusCode := 502; sr_headers := objectOf CORS_HEADERS;
           sr_body := Text (lit "Proxy M3U8 Error") |}
    end
  else
    {| sr_statusCode := pres_statusCode proxyRes;
       sr_headers := responseHeaders;
       sr_body := Piped (pres_content proxyRes) |}.

(** The listener of [proxyReq.on('error', ...)]. *)
Definition onError (message : jsstring) : ServerResponse :=
  {| sr_statusCode := 502; sr_headers := objectOf CORS_HEADERS;
     sr_body := Text (lit "Proxy Error: " ++ message) |}.

(** The listeners the handler registers on [proxyReq], by event name: the
    callback of [request()] and the one [on] call of the source. *)
Definition listeners (req : IncomingMessage) (targetURL : URL)
  : list (jsstring * (ClientEvent -> option ServerResponse)) :=
  [ (lit "response",
     fun e => match e with
              | EvResponse proxyRes => Some (onResponse req targetURL proxyRes)
              | _ => None
              end);
    (lit "error",
     fun e => match e with
              | EvError message => Some (onError message)
              | _ => None
              end) ].

(** [emitter.emit(event)]: the listener registered under the event's
    name runs; with none registered nothing is written to [res]. *)
Definition emit (req : IncomingMessage) (targetURL : URL) (e : ClientEvent)
  : option ServerResponse :=
  match List.find (fun l => strictEquals l.1 (eventName e))
          (listeners req targetURL) with
  | Some l => l.2 e
  | None => None
  end.

Definition invalidUrl : ServerResponse :=
  {| sr_statusCode := 400; sr_headers := objectOf CORS_HEADERS;
     sr_body := Text (lit "Invalid URL") |}.

(** Lines 69-158, the [try] block.  [http.request] and [https.request]
    throw [ERR_INVALID_PROTOCOL] when the URL's protocol is not their
    own; the [catch] turns every exception into the 400 reply. *)
Definition proxy (req : IncomingMessage) (targetUrlParam : jsstring)
  : Outcome :=
  match parseURL targetUrlParam with
  | None => Replied invalidUrl
  | Some targetURL =>
      let proxyOptions := buildProxyOptions req targetURL in
      let expected :=
        if strictEquals (protocol targetURL) (lit "https:")
        then lit "https:" else lit "http:" in
      if strictEquals (protocol targetURL) expected
      then Proxying targetURL proxyOptions (negb (isGetOrHead (im_method req)))
      else Replied invalidUrl
  end.

(** The request listener of [http.createServer].  The preflight is
    answered before [reqUrl] is built; line 41 stands outside the [try],
    so its exception is not turned into a reply. *)
Definition handler (req : IncomingMessage) : Outcome :=
  if strictEquals (im_method req) (lit "OPTIONS") then
    Replied {| sr_statusCode := 204; sr_headers := objectOf CORS_HEADERS;
               sr_body := NoBody |}
  else
    match im_reqUrl req with
    | None => Unhandled
    | Some reqUrl =>
        if strictEquals (ru_pathname reqUrl) (lit "/health") then
          Replied {| sr_statusCode := 200;
                     sr_headers := objectOf CORS_HEADERS;
                     sr_body := Text (lit "OK") |}
        else
          let help :=
            Replied {| sr_statusCode := 200;
                       sr_headers :=
                         objectOf
                           ((lit "Content-Type", lit "text/html; charset=utf-8")
                            :: CORS_HEADERS);
                       sr_body := HelpPage (getHelpPage (hostOrigin req)) |} in
          match ru_searchParam_url reqUrl with
          | None => help
          | Some targetUrlParam =>
              if negb (truthy targetUrlParam) then help
              else
                let denied :=
                  Replied {| sr_statusCode := 403;
                             sr_headers := objectOf CORS_HEADERS;
                             sr_body := Text (lit "Unauthorized") |} in
                if truthy ACCESS_PASSWORD then
                  match im_headers req !! lit "authorization" with
                  | None => denied
                  | Some auth =>
                      if negb (truthy auth)
                         || negb (strictEquals auth
                                    (lit "Bearer " ++ ACCESS_PASSWORD))
                      then denied
                      else proxy req targetUrlParam
                  end
                else proxy req targetUrlParam
          end
    end.

End Server.

End Node.

(** ** The design document's wording

    Section 4.4 (the resolver) and section 4.3 (the key-URI exception) of
    the design document, stated on their own so that the code can be
    compared with them. *)

Module Spec.

(** The base URL's path truncated after its final slash. *)
Definition directoryOf (path dir : jsstring) : Prop :=
  exists file, path = dir ++ file /\ ~ In SLASH file
               /\ (dir = [] \/ exists d, dir = d ++ [SLASH]).

(** The four classes of a reference, in order. *)
Inductive resolve (baseOrigin basePath : jsstring)
  : jsstring -> jsstring -> Prop :=
| resolve_absolute reference :
    startsWith reference (lit "http://") = true
    \/ startsWith reference (lit "https://") = true ->
    resolve baseOrigin basePath reference reference
| resolve_protocol_relative reference :
    startsWith reference (lit "http://") = false ->
    startsWith reference (lit "https://") = false ->
    startsWith reference (lit "//") = true ->
    resolve baseOrigin basePath reference (lit "https:" ++ reference)
| resolve_root_relative reference :
    startsWith reference (lit "//") = false ->
    startsWith reference (lit "/") = true ->
    resolve baseOrigin basePath reference (baseOrigin ++ reference)
| resolve_path_relative reference :
    startsWith reference (lit "http://") = false ->
    startsWith reference (lit "https://") = false ->
    startsWith reference (lit "/") = false ->
    resolve baseOrigin basePath reference (baseOrigin ++ basePath ++ reference).


(** The value of an inbound header as the handlers see it: present and
    not empty. *)
Definition supplied (value : option jsstring) : option jsstring :=
  match value with
  | Some val => if truthy val then Some val else None
  | None => None
  end.

(** The value a header map built by successive [set] calls holds for the
    lower-cased name [key]: that of the last entry with this name. *)
Definition lastValue (entries : list (jsstring * jsstring)) (key : jsstring)
  : option jsstring :=
  snd <$> List.find (fun kv => strictEquals (toLowerCase kv.1) key)
            (rev entries).

(** The same for a plain object, whose property names are compared as
    they are. *)
Definition lastExact (entries : list (jsstring * jsstring)) (key : jsstring)
  : option jsstring :=
  snd <$> List.find (fun kv => strictEquals kv.1 key) (rev entries).

(** An upstream fetch that does not complete within the bound. *)
Definition exceedsBound (u : Workers.Upstream) : Prop :=
  match u with
  | Workers.Replies ms _ | Workers.Fails ms _ => (TIMEOUT_MS <= ms)%N
  | Workers.Silent => True
  end.

End Spec.

(** ** Sample values *)

Module Sample.

(** The base URL of the design document's worked example. *)
Definition base : URL :=
  {| href := lit "https://cdn.example.com/videos/abc/index.m3u8";
     protocol := lit "https:";
     origin := lit "https://cdn.example.com";
     pathname := lit "/videos/abc/index.m3u8" |}.

Definition proxyOrigin : jsstring := lit "https://proxy.example.workers.dev".

(** The key directive of the worked example. *)
Definition keyLine : jsstring :=
  lit "#EXT-X-KEY:METHOD=AES-128,URI=" ++ [QUOTE] ++ lit "key.bin" ++ [QUOTE].

(** A small media playlist. *)
Definition playlist : jsstring :=
  lit "#EXTM3U" ++ [LF] ++ keyLine ++ [LF] ++ lit "#EXTINF:10," ++ [LF]
  ++ lit "seg001.ts" ++ [LF] ++ lit "#EXT-X-ENDLIST" ++ [LF].

(** A playlist of directives and blank lines only. *)
Definition directivesOnly : jsstring :=
  lit "#EXTM3U" ++ [LF] ++ lit "#EXT-X-VERSION:3" ++ [LF] ++ [LF]
  ++ lit "  #EXT-X-ENDLIST" ++ [LF].

(** The Worker's own URL and the Node server's own health URL. *)
Definition workerUrl : URL :=
  {| href := lit "https://proxy.example.workers.dev/";
     protocol := lit "https:";
     origin := proxyOrigin;
     pathname := lit "/" |}.

Definition nodeHealth : URL :=
  {| href := lit "http://localhost:8080/health";
     protocol := lit "http:";
     origin := lit "http://localhost:8080";
     pathname := lit "/health" |}.

Definition ftpFile : URL :=
  {| href := lit "ftp://example.com/file.ts";
     protocol := lit "ftp:";
     origin := lit "ftp://example.com";
     pathname := lit "/file.ts" |}.

(** What [new URL] gives on the sample inputs: the sample URLs parse to
    their records, the other sample strings ([not-a-url], a target with a
    non-numeric port) make it throw. *)
Definition parseURL (s : jsstring) : option URL :=
  List.find (fun u => strictEquals (href u) s)
    [base; workerUrl; nodeHealth; ftpFile].

(** What the Node server's own health check sends back. *)
Definition healthReply : Node.ProxyRes :=
  {| Node.pres_statusCode := 200;
     Node.pres_headers :=
       [ (lit "access-control-allow-origin", lit "*");
         (lit "access-control-allow-methods",
          lit "GET, POST, PUT, DELETE, OPTIONS, HEAD");
         (lit "access-control-allow-headers",
          lit "Content-Type, Authorization, Range");
         (lit "access-control-expose-headers",
          lit "Content-Length, Content-Range");
         (lit "access-control-max-age", lit "86400");
         (lit "connection", lit "keep-alive");
         (lit "transfer-encoding", lit "chunked") ];
     Node.pres_content := lit "OK" |}.

(** A target under the Worker's own origin whose port does not parse. *)
Definition badPortTarget : jsstring :=
  lit "https://proxy.example.workers.dev:x/".

Definition silentUpstream (_ : Workers.ProxyRequest) : Workers.Upstream :=
  Workers.Silent.

Definition helpPage (origin : jsstring) : jsstring :=
  lit "<pre>" ++ origin ++ lit "/?url=</pre>".

(** A GET request to the Worker for [target], with an Accept header. *)
Definition workerRequest (target : option jsstring) : Workers.Request :=
  {| Workers.req_method := lit "GET";
     Workers.req_url := workerUrl;
     Workers.req_searchParam_url := target;
     Workers.req_headers :=
       Workers.headers_init [(lit "Accept", lit "application/json")];
     Workers.req_body := [] |}.

(** A GET request to the Node server on [localhost:8080]. *)
Definition nodeRequest (target : option jsstring) : Node.IncomingMessage :=
  {| Node.im_method := lit "GET";
     Node.im_reqUrl :=
       Some {| Node.ru_pathname := lit "/";
               Node.ru_searchParam_url := target |};
     Node.im_headers :=
       Node.objectOf [(lit "host", lit "localhost:8080");
                      (lit "accept", lit "application/json")] |}.

End Sample.

(** ** Further sample values *)

Module Cases.

(** An origin answering a playlist request after 120 ms. *)
Definition playlistReply : Workers.FetchResponse :=
  {| Workers.fr_status := 200;
     Workers.fr_statusText := lit "OK";
     Workers.fr_headers :=
       [ (lit "content-type", lit "application/vnd.apple.mpegurl");
         (lit "content-length", lit "97");
         (lit "server", lit "nginx") ];
     Workers.fr_text := Sample.playlist |}.

Definition playlistUpstream (_ : Workers.ProxyRequest) : Workers.Upstream :=
  Workers.Replies 120 playlistReply.

(** An origin that no longer has the playlist. *)
Definition goneReply : Workers.FetchResponse :=
  {| Workers.fr_status := 404;
     Workers.fr_statusText := lit "Not Found";
     Workers.fr_headers := [ (lit "content-type", lit "text/html") ];
     Workers.fr_text := lit "<h1>404</h1>" |}.

Definition goneUpstream (_ : Workers.ProxyRequest) : Workers.Upstream :=
  Workers.Replies 35 goneReply.

(** The same playlist as the Node client hands it over. *)
Definition playlistRes : Node.ProxyRes :=
  {| Node.pres_statusCode := 200;
     Node.pres_headers :=
       [ (lit "content-type", lit "application/vnd.apple.mpegurl");
         (lit "content-length", lit "97");
         (lit "server", lit "nginx") ];
     Node.pres_content := Sample.playlist |}.

(** A request to the Node server that carries the password [s3cret]. *)
Definition authorisedRequest : Node.IncomingMessage :=
  {| Node.im_method := lit "GET";
     Node.im_reqUrl :=
       Some {| Node.ru_pathname := lit "/";
               Node.ru_searchParam_url := Some (href Sample.base) |};
     Node.im_headers :=
       Node.objectOf [(lit "host", lit "localhost:8080");
                      (lit "authorization", lit "Bearer s3cret")] |}.

(** A partial playlist, as a range request gets it. *)
Definition partialRes : Node.ProxyRes :=
  {| Node.pres_statusCode := 206;
     Node.pres_headers :=
       [ (lit "content-type", lit "application/vnd.apple.mpegurl");
         (lit "content-range", lit "bytes 0-96/97") ];
     Node.pres_content := Sample.playlist |}.

(** An origin that refuses the connection after 15 ms. *)
Definition refusedUpstream (_ : Workers.ProxyRequest) : Workers.Upstream :=
  Workers.Fails 15 (lit "connect ECONNREFUSED").



(** A target that names its scheme without the two slashes.  The URL
    parser accepts it and reads it as [http://example.com/a.m3u8]. *)
Definition schemelessTarget : jsstring := lit "http:example.com/a.m3u8".

Definition schemelessURL : URL :=
  {| href := lit "http://example.com/a.m3u8";
     protocol := lit "http:";
     origin := lit "http://example.com";
     pathname := lit "/a.m3u8" |}.

(** What [new URL] gives on the sample inputs and on that target. *)
Definition parseURL (s : jsstring) : option URL :=
  if strictEquals s schemelessTarget then Some schemelessURL
  else Sample.parseURL s.

End Cases.

(** ** The TMDB proxy

    The Workers script that relays [/api/...] to [api.themoviedb.org] and
    [/t/...] to [image.tmdb.org], with the runtime's cache in between. *)

(** [s.replace(searchValue, replaceValue)] for a string [searchValue]:
    the first occurrence only; [replaceValue] is taken literally when it
    holds no dollar sign. *)
Fixpoint replaceString (s searchValue replaceValue : jsstring) : jsstring :=
  if startsWith s searchValue
  then replaceValue ++ skipn (length searchValue) s
  else match s with
       | [] => []
       | c :: s' => c :: replaceString s' searchValue replaceValue
       end.

Module Tmdb.

Definition corsHeaders : list (jsstring * jsstring) :=
  [ (lit "Access-Control-Allow-Origin", lit "*");
    (lit "Access-Control-Allow-Methods", lit "GET, POST, OPTIONS");
    (lit "Access-Control-Allow-Headers", lit "Content-Type") ].

Definition API_ORIGIN : jsstring := lit "https://api.themoviedb.org".
Definition IMAGE_ORIGIN : jsstring := lit "https://image.tmdb.org".

Definition USER_AGENT : jsstring :=
  lit "Mozilla/5.0 (Windows NT 10.0; Win64; x64) AppleWebKit/537.36".

Definition IMAGE_CACHE_CONTROL : jsstring := lit "public, max-age=604800".
Definition API_CACHE_CONTROL : jsstring := lit "public, max-age=600".

(** The inbound request: [url.pathname] and [url.search] of its URL. *)
Record Request := mkRequest {
  req_method : jsstring;
  req_pathname : jsstring;
  req_search : jsstring;
  req_headers : Workers.Headers
}.

(** [cacheKey]: a GET request for the target with the one [Accept]
    header the script gives it. *)
Record CacheKey := mkCacheKey {
  key_url : jsstring;
  key_accept : jsstring
}.

(** [caches.default] as the script uses it: [match] finds what [put]
    stored under the same key.  Expiry and eviction belong to the
    runtime. *)
Abbreviation Cache := (gmap (jsstring * jsstring) Workers.Response).

Definition cache_match (cache : Cache) (k : CacheKey)
  : option Workers.Response :=
  cache !! (key_url k, key_accept k).

Definition cache_put (cache : Cache) (k : CacheKey) (r : Workers.Response)
  : Cache :=
  <[(key_url k, key_accept k) := r]> cache.

(** The request [fetch(targetUrl, init)] sends. *)
Record UpstreamRequest := mkUpstreamRequest {
  ur_url : jsstring;
  ur_method : jsstring;
  ur_headers : Workers.Headers
}.

(** The settled promise of [fetch]; a rejection carries [error.message].
    A response that comes from the network or from the cache is given by
    the record of the responses the script builds: payload, status,
    headers, and the status text, [None] standing for the runtime's
    default text of the status. *)
Inductive FetchResult :=
| Resolved (response : Workers.Response)
| Rejected (message : jsstring).

(** [response.ok] *)
Definition ok (r : Workers.Response) : bool :=
  ((200 <=? Workers.res_status r) && (Workers.res_status r <=? 299))%N.

(** [JSON.stringify(usage, null, 2)] of the root path's reply. *)
Definition usageJSON : jsstring :=
  join
    [ lit "{";
      lit "  " ++ quoteJSONString (lit "status") ++ lit ": "
        ++ quoteJSONString (lit "ok") ++ lit ",";
      lit "  " ++ quoteJSONString (lit "message") ++ lit ": "
        ++ quoteJSONString (lit "TMDB Proxy is running") ++ lit ",";
      lit "  " ++ quoteJSONString (lit "usage") ++ lit ": {";
      lit "    " ++ quoteJSONString (lit "api") ++ lit ": "
        ++ quoteJSONString
             (lit "/api/3/movie/popular?api_key=YOUR_KEY&language=zh-CN")
        ++ lit ",";
      lit "    " ++ quoteJSONString (lit "image") ++ lit ": "
        ++ quoteJSONString (lit "/t/p/w500/YOUR_IMAGE_PATH.jpg");
      lit "  }";
      lit "}" ]
    [LF].

(** Lines 34-61: the path either names the target or is answered on the
    spot. *)
Definition route (path search : jsstring) : Workers.Response + jsstring :=
  if startsWith path (lit "/api/") then
    inr (API_ORIGIN ++ replaceString path (lit "/api") [] ++ search)
  else if startsWith path (lit "/t/") then
    inr (IMAGE_ORIGIN ++ path ++ search)
  else if strictEquals path (lit "/") || strictEquals path [] then
    inl {| Workers.res_body := Text usageJSON;
           Workers.res_status := 200;
           Workers.res_statusText := None;
           Workers.res_headers :=
             Workers.headers_init
               ((lit "Content-Type", lit "application/json") :: corsHeaders) |}
  else
    inl {| Workers.res_body := Text (lit "Not Found");
           Workers.res_status := 404;
           Workers.res_statusText := None;
           Workers.res_headers := Workers.textHeaders corsHeaders |}.

(** [isImageRequest] *)
Definition isImageRequest (request : Request) : bool :=
  startsWith (req_pathname request) (lit "/t/").

(** [cacheKey]: the same for every request with the same target. *)
Definition cacheKey (request : Request) (targetUrl : jsstring) : CacheKey :=
  {| key_url := targetUrl;
     key_accept := if isImageRequest request then lit "image/*"
                   else lit "application/json" |}.

(** The request sent on a cache miss: the inbound method, a fixed
    [User-Agent] and the inbound [Accept] or [*/*]; no body. *)
Definition upstreamRequest (request : Request) (targetUrl : jsstring)
  : UpstreamRequest :=
  {| ur_url := targetUrl;
     ur_method := req_method request;
     ur_headers :=
       Workers.headers_init
         [(lit "User-Agent", USER_AGENT);
          (lit "Accept",
           match Workers.headers_get (req_headers request) (lit "Accept") with
           | Some val => if truthy val then val else lit "*/*"
           | None => lit "*/*"
           end)] |}.

(** [cachedResponse]: the reply as it is stored, stamped with its
    lifetime; the script gives it the origin's status and no status
    text. *)
Definition cachedResponse (request : Request) (response : Workers.Response)
  : Workers.Response :=
  let cacheHeaders :=
    Workers.headers_set (Workers.res_headers response) (lit "Cache-Control")
      (if isImageRequest request then IMAGE_CACHE_CONTROL
       else API_CACHE_CONTROL) in
  {| Workers.res_body := Workers.res_body response;
     Workers.res_status := Workers.res_status response;
     Workers.res_statusText := None;
     Workers.res_headers := cacheHeaders |}.

Section Worker.

(** The network as seen from the Worker. *)
Variable upstream : UpstreamRequest -> FetchResult.

(** Lines 63-129, the [try] block: the reply and the cache it leaves.
    The [put] handed to [ctx.waitUntil] completes after the reply is
    returned; the cache returned here is the one it leaves. *)
Definition forward (request : Request) (targetUrl : jsstring) (cache : Cache)
  : Workers.Response * Cache :=
  let fetched : (Workers.Response * Cache) + jsstring :=
    match cache_match cache (cacheKey request targetUrl) with
    | Some response => inl (response, cache)
    | None =>
        match upstream (upstreamRequest request targetUrl) with
        | Rejected message => inr message
        | Resolved response =>
            if ok response then
              inl (response,
                   cache_put cache (cacheKey request targetUrl)
                     (cachedResponse request response))
            else inl (response, cache)
        end
    end in
  match fetched with
  | inl (response, cache) =>
      let newHeaders :=
        foldl (fun h kv => Workers.headers_set h kv.1 kv.2)
          (Workers.res_headers response) corsHeaders in
      let newHeaders :=
        if isImageRequest request
        then Workers.headers_set newHeaders (lit "Cache-Control")
               IMAGE_CACHE_CONTROL
        else newHeaders in
      ({| Workers.res_body := Workers.res_body response;
          Workers.res_status := Workers.res_status response;
          Workers.res_statusText := Workers.res_statusText response;
          Workers.res_headers := newHeaders |}, cache)
  | inr message =>
      ({| Workers.res_body := Text (Workers.errorJSON message);
          Workers.res_status := 500;
          Workers.res_statusText := None;
          Workers.res_headers :=
            Workers.headers_init
              ((lit "Content-Type", lit "application/json") :: corsHeaders) |},
       cache)
  end.

(** The [fetch] handler of the script. *)
Definition fetch (request : Request) (cache : Cache)
  : Workers.Response * Cache :=
  if strictEquals (req_method request) (lit "OPTIONS") then
    ({| Workers.res_body := NoBody;
        Workers.res_status := 200;
        Workers.res_statusText := None;
        Workers.res_headers := Workers.headers_init corsHeaders |}, cache)
  else
    match route (req_pathname request) (req_search request) with
    | inl response => (response, cache)
    | inr targetUrl => forward request targetUrl cache
    end.

End Worker.

End Tmdb.

(** Sample values for the TMDB proxy. *)
Module TmdbCases.

Definition popular : Tmdb.Request :=
  {| Tmdb.req_method := lit "GET";
     Tmdb.req_pathname := lit "/api/3/movie/popular";
     Tmdb.req_search := lit "?api_key=KEY";
     Tmdb.req_headers :=
       Workers.headers_init [(lit "Accept", lit "application/json")] |}.


Definition popularReply : Workers.Response :=
  {| Workers.res_body := Piped (lit "{}");
     Workers.res_status := 200;
     Workers.res_statusText := Some (lit "OK");
     Workers.res_headers :=
       Workers.headers_init [(lit "Content-Type", lit "application/json")] |}.

Definition tmdbUp (_ : Tmdb.UpstreamRequest) : Tmdb.FetchResult :=
  Tmdb.Resolved popularReply.

Definition tmdbDown (_ : Tmdb.UpstreamRequest) : Tmdb.FetchResult :=
  Tmdb.Rejected (lit "Network connection lost.").

(** A network that answers for the two TMDB hosts only. *)
Definition tmdbOnly (rq : Tmdb.UpstreamRequest) : Tmdb.FetchResult :=
  if startsWith (Tmdb.ur_url rq) (Tmdb.API_ORIGIN ++ lit "/")
     || startsWith (Tmdb.ur_url rq) (Tmdb.IMAGE_ORIGIN ++ lit "/t/")
  then tmdbUp rq else tmdbDown rq.

(** The first request again, from a client that also sends a cookie and
    a token. *)
Definition popularWithCookie : Tmdb.Request :=
  {| Tmdb.req_method := lit "GET";
     Tmdb.req_pathname := lit "/api/3/movie/popular";
     Tmdb.req_search := lit "?api_key=KEY";
     Tmdb.req_headers :=
       Workers.headers_init
         [(lit "Accept", lit "application/json");
          (lit "Cookie", lit "session=1");
          (lit "Authorization", lit "Bearer token")] |}.

End TmdbCases.

(** ** The service worker

    The page's service worker: its cache names, the choice of a strategy
    for each intercepted request, the clean-up on activation and the
    bound on the image cache. *)

Module ServiceWorker.

Definition CACHE_VERSION : jsstring := lit "v22".
Definition STATIC_CACHE : jsstring := lit "donggua-static-" ++ CACHE_VERSION.
Definition IMAGE_CACHE : jsstring := lit "donggua-images-" ++ CACHE_VERSION.

Definition STATIC_URLS : list jsstring :=
  [ lit "./";
    lit "./index.html";
    lit "./manifest.json";
    lit "./icon.png";
    lit "./libs/css/bootstrap.min.css";
    lit "./libs/css/animate.min.css";
    lit "./libs/css/fontawesome.min.css";
    lit "./libs/js/vue.global.prod.min.js";
    lit "./libs/js/bootstrap.bundle.min.js";
    lit "./libs/js/hls.min.js";
    lit "./libs/js/DPlayer.min.js" ].

Definition IMAGE_HOSTS : list jsstring :=
  [ lit "image.tmdb.org"; lit "i.tmdb.org" ].

Definition MAX_IMAGE_CACHE : nat := 500.

Section Caches.

(** The stored responses; the worker never looks into them here. *)
Context {R : Type}.

(** A [Cache]: its request/response pairs in insertion order, requests
    given by their URL.  [keys()] lists the requests in that order and
    [delete(request)] removes every pair of the request. *)
Definition Cache : Type := list (jsstring * R).

Definition cache_keys (cache : Cache) : list jsstring := List.map fst cache.

Definition cache_delete (cache : Cache) (request : jsstring) : Cache :=
  List.filter (fun entry => negb (strictEquals entry.1 request)) cache.

(** [trimImageCache(cache)]: the [for] loop runs over the indices below
    [deleteCount] and deletes the key read at each. *)
Definition trimImageCache (cache : Cache) : Cache :=
  let keys := cache_keys cache in
  if (MAX_IMAGE_CACHE <? length keys)%nat then
    let deleteCount := (length keys - MAX_IMAGE_CACHE)%nat in
    foldl (fun cache i =>
             match keys !! i with
             | Some request => cache_delete cache request
             | None => cache
             end) cache (seq 0 deleteCount)
  else cache.

(** The [activate] listener on [caches], the named caches of the origin:
    every cache whose name is neither of the two current names is
    deleted. *)
Definition activate (caches : gmap jsstring Cache) : gmap jsstring Cache :=
  let cacheNames := (map_to_list caches).*1 in
  foldl (fun caches cacheName =>
           if negb (strictEquals cacheName STATIC_CACHE)
              && negb (strictEquals cacheName IMAGE_CACHE)
           then base.delete cacheName caches
           else caches) caches cacheNames.

End Caches.

(** What the [fetch] listener reads of its event: [event.request.url],
    the hostname, pathname and origin of that URL parsed, and the mode and
    method of the request. *)
Record FetchEvent := mkFetchEvent {
  fe_url : jsstring;
  fe_hostname : jsstring;
  fe_pathname : jsstring;
  fe_origin : jsstring;
  fe_mode : jsstring;
  fe_method : jsstring
}.

(** The ways the listener ends: it returns without [respondWith], or it
    responds by one of its four strategies. *)
Inductive Strategy :=
| NotHandled
| ImageCacheFirst
| PageNetworkFirst
| StaticStaleWhileRevalidate
| SameOriginNetworkFirst.

(** The [fetch] listener, for a worker served from [locationOrigin]. *)
Definition onFetch (locationOrigin : jsstring) (event : FetchEvent)
  : Strategy :=
  if includes (fe_hostname event) (lit "workers.dev") then NotHandled
  else if existsb (fun host => includes (fe_hostname event) host) IMAGE_HOSTS
          || startsWith (fe_pathname event) (lit "/api/tmdb-image")
  then ImageCacheFirst
  else if strictEquals (fe_mode event) (lit "navigate")
          || endsWith (fe_pathname event) (lit ".html")
          || strictEquals (fe_pathname event) (lit "/")
  then PageNetworkFirst
  else if existsb (fun staticUrl => includes (fe_url event) staticUrl)
            STATIC_URLS
  then StaticStaleWhileRevalidate
  else if negb (strictEquals (fe_origin event) locationOrigin) then NotHandled
  else if negb (strictEquals (fe_method event) (lit "GET")) then NotHandled
  else SameOriginNetworkFirst.

End ServiceWorker.

(** Sample values for the service worker. *)
Module WorkerCases.

(** An image cache one entry over the bound: posters numbered from 0 to
    500, the oldest first. *)
Definition poster (i : nat) : jsstring * unit :=
  (lit "https://image.tmdb.org/t/p/w500/" ++ [N.of_nat i], tt).

Definition fullCache : ServiceWorker.Cache :=
  List.map poster (seq 0 (S ServiceWorker.MAX_IMAGE_CACHE)).

(** The player script of the page, requested from the page's origin. *)
Definition hlsScript : ServiceWorker.FetchEvent :=
  {| ServiceWorker.fe_url := lit "https://tv.example.com/libs/js/hls.min.js";
     ServiceWorker.fe_hostname := lit "tv.example.com";
     ServiceWorker.fe_pathname := lit "/libs/js/hls.min.js";
     ServiceWorker.fe_origin := lit "https://tv.example.com";
     ServiceWorker.fe_mode := lit "no-cors";
     ServiceWorker.fe_method := lit "GET" |}.

End WorkerCases.

(** * Properties of the string primitives *)

Section StringFacts.

Implicit Types s t p : jsstring.

Lemma strictEquals_spec s t : strictEquals s t = true <-> s = t.
Proof.
  revert t. induction s as [|c s IH]; intros [|d t]; simpl; try easy.
  rewrite andb_true_iff, N.eqb_eq, IH. split.
  - intros [-> ->]. reflexivity.
  - intros [= -> ->]. auto.
Qed.

Lemma strictEquals_refl s : strictEquals s s = true.
Proof. now apply strictEquals_spec. Qed.

Lemma startsWith_spec s p : startsWith s p = true <-> exists r, s = p ++ r.
Proof.
  revert s. induction p as [|c p IH]; intros s; simpl.
  - split; [intros _; now exists s | reflexivity].
  - destruct s as [|d s].
    + split; [discriminate | intros [r Hr]; discriminate].
    + rewrite andb_true_iff, N.eqb_eq, IH. split.
      * intros [-> [r ->]]. eauto.
      * intros [r [= -> ->]]. eauto.
Qed.

Lemma startsWith_app p r : startsWith (p ++ r) p = true.
Proof. apply startsWith_spec. eauto. Qed.

Lemma includes_spec s p :
  includes s p = true <-> exists a b, s = a ++ p ++ b.
Proof.
  induction s as [|c s IH]; simpl.
  - rewrite orb_false_r, startsWith_spec. split.
    + intros [r Hr]. exists [], r. exact Hr.
    + intros (a & b & H). symmetry in H.
      apply app_eq_nil in H as [-> H]. apply app_eq_nil in H as [-> ->].
      exists []. reflexivity.
  - rewrite orb_true_iff, startsWith_spec, IH. split.
    + intros [[r Hr] | (a & b & ->)].
      * exists [], r. exact Hr.
      * exists (c :: a), b. reflexivity.
    + intros ([|d a] & b & H); simpl in H.
      * left. eauto.
      * right. injection H as _ ->. eauto.
Qed.

(** *** split and join *)

Lemma split_cons c s sep :
  split (c :: s) sep =
    if (c =? sep)%N then [] :: split s sep
    else match split s sep with
         | [] => [[c]]
         | l :: ls => (c :: l) :: ls
         end.
Proof. reflexivity. Qed.

Lemma split_not_nil s sep : split s sep <> [].
Proof.
  induction s as [|c s IH]; simpl; [easy|].
  destruct (c =? sep)%N; [easy|]. destruct (split s sep); easy.
Qed.

Lemma join_cons l a sep :
  a <> [] -> join (l :: a) sep = l ++ sep ++ join a sep.
Proof. destruct a; easy. Qed.

Lemma join_split s sep : join (split s sep) [sep] = s.
Proof.
  induction s as [|c s IH]; [reflexivity|].
  rewrite split_cons. destruct (c =? sep)%N eqn:E.
  - apply N.eqb_eq in E as ->.
    rewrite join_cons by apply split_not_nil. simpl. now rewrite IH.
  - pose proof (split_not_nil s sep) as Hne.
    destruct (split s sep) as [|l ls]; [easy|].
    destruct ls as [|l' ls]; simpl in *; now rewrite <- IH.
Qed.

Lemma split_no_sep s sep : Forall (fun l => ~ In sep l) (split s sep).
Proof.
  induction s as [|c s IH]; simpl.
  - constructor; [easy | constructor].
  - destruct (c =? sep)%N eqn:E.
    + constructor; [easy | exact IH].
    + apply N.eqb_neq in E.
      destruct (split s sep) as [|l ls]; inversion IH; subst;
        constructor; simpl; try intros [?|?]; try easy; constructor.
Qed.

Lemma split_line_sep l s sep :
  ~ In sep l -> split (l ++ sep :: s) sep = l :: split s sep.
Proof.
  induction l as [|c l IH]; intros Hl; simpl.
  - now rewrite N.eqb_refl.
  - destruct (c =? sep)%N eqn:E.
    + apply N.eqb_eq in E. subst. exfalso. apply Hl. now left.
    + rewrite IH; [reflexivity|]. intros H. apply Hl. now right.
Qed.

Lemma split_line l sep : ~ In sep l -> split l sep = [l].
Proof.
  induction l as [|c l IH]; intros Hl; simpl; [reflexivity|].
  destruct (c =? sep)%N eqn:E.
  - apply N.eqb_eq in E. subst. exfalso. apply Hl. now left.
  - rewrite IH; [reflexivity|]. intros H. apply Hl. now right.
Qed.

Lemma split_join a sep :
  a <> [] -> Forall (fun l => ~ In sep l) a -> split (join a [sep]) sep = a.
Proof.
  induction a as [|l a IH]; [easy|]. intros _ Hall.
  inversion Hall as [|? ? Hl Ha]; subst.
  destruct a as [|l' a].
  - simpl. now apply split_line.
  - rewrite join_cons by easy.
    change (l ++ [sep] ++ join (l' :: a) [sep])
      with (l ++ sep :: join (l' :: a) [sep]).
    rewrite split_line_sep by exact Hl. now rewrite IH.
Qed.

(** *** trim *)

Lemma trimStart_decomp s :
  exists w, s = w ++ trimStart s /\ Forall (fun c => isWhiteSpace c = true) w.
Proof.
  induction s as [|c s (w & Hs & Hw)]; simpl.
  - exists []. split; [reflexivity | constructor].
  - destruct (isWhiteSpace c) eqn:E.
    + exists (c :: w). split; [simpl; now rewrite <- Hs | now constructor].
    + exists []. split; [reflexivity | constructor].
Qed.

Lemma trimEnd_decomp s :
  exists w, s = trimEnd s ++ w /\ Forall (fun c => isWhiteSpace c = true) w.
Proof.
  unfold trimEnd. destruct (trimStart_decomp (rev s)) as (w & Hs & Hw).
  exists (rev w). split.
  - rewrite <- rev_app_distr, <- Hs. now rewrite rev_involutive.
  - apply Forall_forall. intros c Hc. rewrite <- in_rev in Hc.
    revert c Hc. now apply Forall_forall.
Qed.

Lemma trim_decomp s :
  exists w1 w2, s = w1 ++ trim s ++ w2
    /\ Forall (fun c => isWhiteSpace c = true) w1
    /\ Forall (fun c => isWhiteSpace c = true) w2.
Proof.
  destruct (trimStart_decomp s) as (w1 & H1 & Hw1).
  destruct (trimEnd_decomp (trimStart s)) as (w2 & H2 & Hw2).
  exists w1, w2. unfold trim. now rewrite <- H2.
Qed.

Lemma trimStart_head c s :
  isWhiteSpace c = false -> trimStart (c :: s) = c :: s.
Proof. intros H. simpl. now rewrite H. Qed.

Lemma trimStart_whitespace w s :
  Forall (fun c => isWhiteSpace c = true) w -> trimStart (w ++ s) = trimStart s.
Proof.
  induction 1 as [|c w Hc _ IH]; [reflexivity|]. simpl. now rewrite Hc.
Qed.

(** *** Code-unit classes *)

Ltac unit_arith :=
  unfold isSurrogate, isHighSurrogate, isLowSurrogate, isWhiteSpace,
    isUnreserved, isAlpha, isDigit, UNRESERVED_MARKS,
    LF, QUOTE, HASH, PERCENT, SLASH in *;
  cbn [existsb] in *;
  repeat first
    [ rewrite andb_true_iff in * | rewrite orb_true_iff in *
    | rewrite andb_false_iff in * | rewrite orb_false_iff in *
    | rewrite N.leb_le in * | rewrite N.leb_gt in *
    | rewrite N.eqb_eq in * | rewrite N.eqb_neq in *
    | rewrite N.ltb_lt in * | rewrite N.ltb_ge in * ];
  try (intuition lia).

Lemma isUnreserved_ascii c : isUnreserved c = true -> (c < 128)%N.
Proof. intros H. unit_arith. Qed.

Lemma isWhiteSpace_not_surrogate c :
  isWhiteSpace c = true -> isSurrogate c = false.
Proof. intros H. unit_arith. Qed.

Lemma ascii_not_surrogate c : (c < 128)%N -> isSurrogate c = false.
Proof. intros H. unit_arith. Qed.

Lemma high_not_low c : isHighSurrogate c = true -> isLowSurrogate c = false.
Proof. intros H. unit_arith. Qed.

Lemma surrogate_not_unreserved c :
  isSurrogate c = true -> isUnreserved c = false.
Proof.
  intros H. destruct (isUnreserved c) eqn:E; [|reflexivity].
  apply isUnreserved_ascii, ascii_not_surrogate in E. congruence.
Qed.

Lemma isSurrogate_false c :
  isSurrogate c = false ->
  isHighSurrogate c = false /\ isLowSurrogate c = false.
Proof. unfold isSurrogate. now rewrite orb_false_iff. Qed.

Lemma hexDigit_unreserved n : isUnreserved (hexDigit (n mod 16)) = true.
Proof.
  pose proof (N.mod_upper_bound n 16 ltac:(lia)) as Hlt.
  generalize dependent (n mod 16)%N. intros k Hlt.
  unfold hexDigit, isUnreserved. destruct (N.ltb_spec k 10).
  - assert (isDigit (48 + k) = true) as ->
      by (unfold isDigit; apply andb_true_iff; split; apply N.leb_le; lia).
    now rewrite orb_true_r.
  - assert (isAlpha (55 + k) = true) as ->
      by (unfold isAlpha; apply orb_true_iff; left;
          apply andb_true_iff; split; apply N.leb_le; lia).
    reflexivity.
Qed.

(** *** Well-formed strings *)

Lemma wellFormed_unit c s :
  isSurrogate c = false -> wellFormed (c :: s) = wellFormed s.
Proof.
  intros H. apply isSurrogate_false in H as [Hh Hl]. simpl.
  now rewrite Hl, Hh.
Qed.

Lemma wellFormed_pair h l s :
  isHighSurrogate h = true ->
  wellFormed (h :: l :: s) = isLowSurrogate l && wellFormed s.
Proof.
  intros H. simpl. now rewrite (high_not_low _ H), H.
Qed.

(** Induction along the code points of a well-formed string. *)
Lemma wellFormed_ind (P : jsstring -> Prop) :
  P [] ->
  (forall c s, isSurrogate c = false -> wellFormed s = true -> P s ->
               P (c :: s)) ->
  (forall h l s, isHighSurrogate h = true -> isLowSurrogate l = true ->
                 wellFormed s = true -> P s -> P (h :: l :: s)) ->
  forall s, wellFormed s = true -> P s.
Proof.
  intros Hnil Hunit Hpair s.
  assert (H : forall n s, (length s <= n)%nat -> wellFormed s = true -> P s).
  { clear s. induction n as [|n IH]; intros [|c s] Hlen Hwf;
      simpl in Hlen; try exact Hnil; try lia.
    simpl in Hwf.
    destruct (isLowSurrogate c) eqn:El; [discriminate|].
    destruct (isHighSurrogate c) eqn:Eh.
    - destruct s as [|d s]; [discriminate|].
      apply andb_true_iff in Hwf as [Hd Hwf].
      apply Hpair; auto. apply IH; [simpl in Hlen; lia | exact Hwf].
    - apply Hunit; auto.
      + unfold isSurrogate. now rewrite Eh, El.
      + apply IH; [lia | exact Hwf]. }
  apply (H (length s)). lia.
Qed.

Lemma wellFormed_app s t :
  wellFormed s = true -> wellFormed t = true -> wellFormed (s ++ t) = true.
Proof.
  intros Hs Ht. revert s Hs. apply wellFormed_ind.
  - exact Ht.
  - intros c s Hc _ IH. simpl app. now rewrite wellFormed_unit.
  - intros h l s Hh Hl _ IH. simpl app.
    rewrite wellFormed_pair by assumption. now apply andb_true_iff.
Qed.

Lemma wellFormed_ascii s :
  Forall (fun c => (c < 128)%N) s -> wellFormed s = true.
Proof.
  induction 1 as [|c s Hc _ IH]; [reflexivity|].
  now rewrite wellFormed_unit by now apply ascii_not_surrogate.
Qed.

(** A unit that is no surrogate separates a well-formed string into
    well-formed parts. *)
Lemma wellFormed_app_unit_inv s c t :
  isSurrogate c = false -> wellFormed (s ++ c :: t) = true ->
  wellFormed s = true /\ wellFormed t = true.
Proof.
  intros Hc.
  assert (H : forall n s, (length s <= n)%nat ->
            wellFormed (s ++ c :: t) = true ->
            wellFormed s = true /\ wellFormed t = true).
  { clear s. induction n as [|n IH]; intros [|x s] Hlen Hwf;
      simpl in Hlen; try lia.
    - simpl app in Hwf. rewrite wellFormed_unit in Hwf by exact Hc. auto.
    - simpl app in Hwf. rewrite wellFormed_unit in Hwf by exact Hc. auto.
    - simpl app in Hwf. simpl in Hwf |- *.
      destruct (isLowSurrogate x) eqn:El; [discriminate|].
      destruct (isHighSurrogate x) eqn:Eh.
      + destruct s as [|y s]; simpl app in Hwf.
        * apply andb_true_iff in Hwf as [Hl _].
          apply isSurrogate_false in Hc as [_ Hc]. congruence.
        * apply andb_true_iff in Hwf as [Hy Hwf].
          apply IH in Hwf as [Hs Ht]; [|simpl in Hlen; lia].
          now rewrite Hy, Hs.
      + apply IH; [lia | exact Hwf]. }
  apply (H (length s)). lia.
Qed.

Lemma wellFormed_drop_units w s :
  Forall (fun c => isSurrogate c = false) w ->
  wellFormed (w ++ s) = true -> wellFormed s = true.
Proof.
  induction 1 as [|c w Hc _ IH]; [easy|].
  simpl app. rewrite wellFormed_unit by exact Hc. exact IH.
Qed.

Lemma wellFormed_drop_trailing s w :
  Forall (fun c => isSurrogate c = false) w ->
  wellFormed (s ++ w) = true -> wellFormed s = true.
Proof.
  intros Hw H. destruct Hw as [|c w Hc _].
  - now rewrite app_nil_r in H.
  - now apply wellFormed_app_unit_inv in H.
Qed.

Lemma wellFormed_trim s : wellFormed s = true -> wellFormed (trim s) = true.
Proof.
  intros H. destruct (trim_decomp s) as (w1 & w2 & Hs & Hw1 & Hw2).
  rewrite Hs in H.
  apply wellFormed_drop_units in H.
  - apply wellFormed_drop_trailing in H; [exact H|].
    eapply Forall_impl; [|exact Hw2]. apply isWhiteSpace_not_surrogate.
  - eapply Forall_impl; [|exact Hw1]. apply isWhiteSpace_not_surrogate.
Qed.

Lemma wellFormed_split s :
  wellFormed s = true ->
  Forall (fun l => wellFormed l = true) (split s LF).
Proof.
  revert s. apply wellFormed_ind; [|intros c s Hc Hs IH|intros h l s Hh Hl Hs IH].
  - now repeat constructor.
  - rewrite split_cons. destruct (c =? LF)%N.
    + now constructor.
    + destruct (split s LF) as [|x xs]; inversion IH; subst; constructor;
        try rewrite wellFormed_unit; auto.
  - assert (Hh' : (h =? LF)%N = false) by (clear - Hh; unit_arith).
    assert (Hl' : (l =? LF)%N = false) by (clear - Hl; unit_arith).
    rewrite !split_cons, Hh', Hl'.
    pose proof (split_not_nil s LF) as Hne.
    destruct (split s LF) as [|x xs]; [easy|].
    inversion IH; subst. constructor; [|assumption].
    rewrite wellFormed_pair by exact Hh. now apply andb_true_iff.
Qed.

(** *** encodeURIComponent *)

Lemma encodeURIComponent_wellFormed s :
  wellFormed s = true -> is_Some (encodeURIComponent s).
Proof.
  revert s.
  apply wellFormed_ind; [|intros c s Hc Hs [e IH]|intros h l s Hh Hl Hs [e IH]].
  - now exists [].
  - apply isSurrogate_false in Hc as [Hh Hl]. simpl.
    rewrite IH, Hh, Hl. destruct (isUnreserved c); simpl; eauto.
  - simpl. rewrite surrogate_not_unreserved
      by (unfold isSurrogate; now rewrite Hh).
    rewrite (high_not_low _ Hh), Hh, Hl, IH. simpl. eauto.
Qed.

Lemma percentOctets_safe bs :
  Forall (fun c => isUnreserved c = true \/ c = PERCENT) (percentOctets bs).
Proof.
  induction bs as [|b bs IH]; simpl; [constructor|].
  constructor; [now right|].
  constructor; [left; apply hexDigit_unreserved|].
  constructor; [left; apply hexDigit_unreserved | exact IH].
Qed.

(** The output alphabet of [encodeURIComponent]: unreserved units and the
    percent sign. *)
Lemma encodeURIComponent_safe s e :
  encodeURIComponent s = Some e ->
  Forall (fun c => isUnreserved c = true \/ c = PERCENT) e.
Proof.
  assert (H : forall n s e, (length s <= n)%nat ->
            encodeURIComponent s = Some e ->
            Forall (fun c => isUnreserved c = true \/ c = PERCENT) e).
  { clear. induction n as [|n IH]; intros [|c s] e Hlen He;
      simpl in Hlen; try lia; simpl in He.
    - injection He as <-. constructor.
    - injection He as <-. constructor.
    - destruct (isUnreserved c) eqn:Eu.
      { destruct (encodeURIComponent s) as [e'|] eqn:Ee; [|discriminate].
        injection He as <-. constructor; [now left|].
        apply (IH s); [lia | exact Ee]. }
      destruct (isLowSurrogate c); [discriminate|].
      destruct (isHighSurrogate c).
      + destruct s as [|d s]; [discriminate|].
        destruct (isLowSurrogate d); [|discriminate].
        destruct (encodeURIComponent s) as [e'|] eqn:Ee; [|discriminate].
        injection He as <-. apply Forall_app. split.
        * apply percentOctets_safe.
        * apply (IH s); [simpl in Hlen; lia | exact Ee].
      + destruct (encodeURIComponent s) as [e'|] eqn:Ee; [|discriminate].
        injection He as <-. apply Forall_app. split.
        * apply percentOctets_safe.
        * apply (IH s); [lia | exact Ee]. }
  intros He. apply (H (length s) s e); [lia | exact He].
Qed.

End StringFacts.

(** * Properties of the attribute pattern *)

Section PatternFacts.

Implicit Types s t uri rest : jsstring.

Lemma replaceURI_cons replacer c s :
  replaceURI replacer (c :: s) =
    match matchURI (c :: s) with
    | Some (uri, rest) =>
        r ← replacer uri; t ← replaceURI replacer rest; Some (r ++ t)
    | None => cons c <$> replaceURI replacer s
    end.
Proof.
  rewrite replaceURI_equation_2.
  destruct (inspect (matchURI (c :: s))) as [m Hm].
  destruct m as [[uri rest]|]; cbn [replaceURI_unfold_clause_2];
    now rewrite Hm.
Qed.

Lemma spanNotQuote_spec s v r :
  spanNotQuote s = (v, r) ->
  s = v ++ r /\ ~ In QUOTE v /\ (r = [] \/ exists r', r = QUOTE :: r').
Proof.
  revert v r. induction s as [|c s IH]; intros v r; simpl.
  - intros [= <- <-]. auto.
  - destruct (c =? QUOTE)%N eqn:E.
    + apply N.eqb_eq in E as ->. intros [= <- <-]. eauto 6.
    + apply N.eqb_neq in E. destruct (spanNotQuote s) as [v' r'].
      intros [= <- <-]. destruct (IH v' r' eq_refl) as (-> & Hv & Hr).
      repeat split; auto. intros [?|?]; auto.
Qed.

Lemma spanNotQuote_app v r :
  ~ In QUOTE v -> spanNotQuote (v ++ QUOTE :: r) = (v, QUOTE :: r).
Proof.
  induction v as [|c v IH]; intros Hv; simpl.
  - reflexivity.
  - destruct (c =? QUOTE)%N eqn:E.
    + apply N.eqb_eq in E. exfalso. apply Hv. now left.
    + rewrite IH; [reflexivity|]. intros H. apply Hv. now right.
Qed.

Lemma skipn_URI_ATTR s : skipn (length URI_ATTR) (URI_ATTR ++ s) = s.
Proof. reflexivity. Qed.

(** A match is the attribute name, a non-empty quote-free value and the
    closing quote. *)
Lemma matchURI_spec s uri rest :
  matchURI s = Some (uri, rest) <->
  s = URI_ATTR ++ uri ++ QUOTE :: rest /\ uri <> [] /\ ~ In QUOTE uri.
Proof.
  unfold matchURI. split.
  - destruct (startsWith s URI_ATTR) eqn:Hs; [|discriminate].
    apply startsWith_spec in Hs as [t ->]. rewrite skipn_URI_ATTR.
    destruct (spanNotQuote t) as [v r] eqn:Ht.
    apply spanNotQuote_spec in Ht as (-> & Hv & Hr).
    destruct v as [|x v]; [discriminate|].
    destruct r as [|q r]; [discriminate|].
    destruct Hr as [|[r' [= -> ->]]]; [discriminate|].
    intros [= <- <-]. repeat split; auto; discriminate.
  - intros (-> & Hne & Hq). rewrite startsWith_app, skipn_URI_ATTR.
    rewrite spanNotQuote_app by exact Hq.
    destruct uri; [contradiction|reflexivity].
Qed.


(** An occurrence of the attribute name cannot start before another one
    and run into it: its five code units are pairwise distinct. *)
Lemma no_straddle pre t :
  pre <> [] -> includes pre URI_ATTR = false ->
  startsWith (pre ++ URI_ATTR ++ t) URI_ATTR = false.
Proof.
  intros Hne Hinc.
  destruct pre as [|p0 [|p1 [|p2 [|p3 [|p4 pre]]]]]; [contradiction|..];
    change URI_ATTR with [85; 82; 73; 61; 34]%N in *; simpl in Hinc |- *;
    repeat match goal with
      | |- context [(?a =? ?b)%N] => destruct (N.eqb_spec a b); subst
      end; simpl in *; try reflexivity; try discriminate; try lia.
Qed.

Lemma matchURI_shorter s uri rest :
  matchURI s = Some (uri, rest) -> (length rest < length s)%nat.
Proof.
  intros H. apply matchURI_spec in H as (-> & _ & _).
  rewrite !length_app. simpl. lia.
Qed.

(** Induction along the scan of [replaceURI]: at each position either a
    match is replaced and the scan resumes after it, or one code unit is
    kept. *)
Lemma replaceURI_scan_ind replacer (P : jsstring -> option jsstring -> Prop) :
  P [] (Some []) ->
  (forall c s uri rest,
      matchURI (c :: s) = Some (uri, rest) ->
      P rest (replaceURI replacer rest) ->
      P (c :: s)
        (r ← replacer uri; t ← replaceURI replacer rest; Some (r ++ t))) ->
  (forall c s,
      matchURI (c :: s) = None ->
      P s (replaceURI replacer s) ->
      P (c :: s) (cons c <$> replaceURI replacer s)) ->
  forall s, P s (replaceURI replacer s).
Proof.
  intros Hnil Hmatch Hkeep s.
  assert (H : forall n s, (length s <= n)%nat -> P s (replaceURI replacer s)).
  { clear s. induction n as [|n IH]; intros [|c s] Hlen; simpl in Hlen;
      try lia; try (rewrite replaceURI_equation_1; exact Hnil).
    rewrite replaceURI_cons.
    destruct (matchURI (c :: s)) as [[uri rest]|] eqn:Hm.
    - apply Hmatch; [exact Hm|]. apply IH.
      apply matchURI_shorter in Hm. simpl in Hm. lia.
    - apply Hkeep; [exact Hm|]. apply IH. lia. }
  apply (H (length s)). lia.
Qed.

(** A text without the attribute name comes back unchanged. *)
Lemma replaceURI_no_attr replacer s :
  includes s URI_ATTR = false -> replaceURI replacer s = Some s.
Proof.
  pattern s, (replaceURI replacer s). apply replaceURI_scan_ind; clear s.
  - reflexivity.
  - intros c s uri rest Hm _ Hinc. exfalso.
    apply matchURI_spec in Hm as (Hs & _ & _).
    assert (includes (c :: s) URI_ATTR = true) as Ht
      by (apply includes_spec; exists [], (uri ++ QUOTE :: rest); exact Hs).
    congruence.
  - intros c s _ IH Hinc. simpl in Hinc.
    apply orb_false_iff in Hinc as [_ Hinc]. now rewrite IH.
Qed.


(** The callback is only ever given well-formed captures when the text
    is the tail of a well-formed string. *)
Lemma replaceURI_is_Some replacer s :
  (forall uri, wellFormed uri = true -> is_Some (replacer uri)) ->
  (exists p, wellFormed (p ++ s) = true) ->
  is_Some (replaceURI replacer s).
Proof.
  intros Hrep. pattern s, (replaceURI replacer s).
  apply replaceURI_scan_ind; clear s.
  - eauto.
  - intros c s uri rest Hm IH [p Hwf].
    apply matchURI_spec in Hm as (Hs & _ & _). rewrite Hs in Hwf.
    assert (Hq : isSurrogate QUOTE = false) by reflexivity.
    assert (Hwf' : wellFormed ((p ++ lit "URI=") ++ QUOTE :: uri ++ QUOTE :: rest)
                   = true) by (now rewrite <- app_assoc).
    apply wellFormed_app_unit_inv in Hwf' as [_ Hwf']; [|exact Hq].
    pose proof Hwf' as Hwf''.
    apply wellFormed_app_unit_inv in Hwf' as [Huri _]; [|exact Hq].
    destruct (Hrep uri Huri) as [r ->].
    destruct IH as [t ->]; [|simpl; eauto].
    exists (p ++ URI_ATTR ++ uri ++ [QUOTE]).
    rewrite <- !app_assoc. exact Hwf.
  - intros c s _ IH [p Hwf].
    destruct IH as [t ->]; [|simpl; eauto].
    exists (p ++ [c]). now rewrite <- app_assoc.
Qed.

(** Every code unit of the result comes from the text or from the
    callback. *)
Lemma replaceURI_Forall (P : N -> Prop) replacer s t :
  (forall uri r, replacer uri = Some r -> Forall P r) ->
  Forall P s -> replaceURI replacer s = Some t -> Forall P t.
Proof.
  intros Hrep. revert t. pattern s, (replaceURI replacer s).
  apply replaceURI_scan_ind; clear s.
  - intros t _ [= <-]. constructor.
  - intros c s uri rest Hm IH t Hs Ht.
    destruct (replacer uri) as [r|] eqn:Hr; [|discriminate]. simpl in Ht.
    destruct (replaceURI replacer rest) as [t'|]; [|discriminate].
    injection Ht as <-. apply Forall_app. split; [now apply (Hrep uri)|].
    apply IH; [|reflexivity].
    apply matchURI_spec in Hm as (Heq & _ & _). rewrite Heq in Hs.
    apply Forall_app in Hs as [_ Hs]. apply Forall_app in Hs as [_ Hs].
    now inversion Hs.
  - intros c s _ IH t Hs Ht.
    destruct (replaceURI replacer s) as [t'|]; [|discriminate].
    injection Ht as <-. inversion Hs; subst. constructor; auto.
Qed.

(** *** Occurrences of the name the pattern does not match *)






End PatternFacts.

(** * The playlist rewriter *)

Section RewriterFacts.

Implicit Types s line content : jsstring.

(** *** The base directory *)

Lemma lastIndexOf_from_spec s c i found :
  (~ In c s /\ lastIndexOf_from s c i found = found)
  \/ (exists a b, s = a ++ c :: b /\ ~ In c b
        /\ lastIndexOf_from s c i found = (i + Z.of_nat (length a))%Z).
Proof.
  revert i found. induction s as [|d s IH]; intros i found; simpl.
  - left. auto.
  - destruct (IH (i + 1)%Z (if (d =? c)%N then i else found))
      as [[Hn He] | (a & b & -> & Hb & He)].
    + rewrite He. destruct (N.eqb_spec d c) as [->|Hd].
      * right. exists [], s. simpl. repeat split; auto. lia.
      * left. split; [|reflexivity]. intros [?|?]; auto.
    + right. exists (d :: a), b. repeat split; auto.
      rewrite He. simpl length. lia.
Qed.

Lemma substring_prefix s k :
  (0 <= k <= Z.of_nat (length s))%Z ->
  substring s 0 k = firstn (Z.to_nat k) s.
Proof.
  intros Hk. unfold substring. cbv zeta.
  replace (Z.min (Z.max 0 0) (Z.of_nat (length s))) with 0%Z by lia.
  replace (Z.min (Z.max k 0) (Z.of_nat (length s))) with k by lia.
  replace (Z.min 0 k) with 0%Z by lia.
  replace (Z.max 0 k) with k by lia.
  now rewrite Z.sub_0_r.
Qed.

Lemma basePathOf_spec baseUrl :
  Spec.directoryOf (pathname baseUrl) (basePathOf baseUrl).
Proof.
  unfold Spec.directoryOf, basePathOf, lastIndexOf.
  destruct (lastIndexOf_from_spec (pathname baseUrl) SLASH 0 (-1))
    as [[Hn ->] | (a & b & Hp & Hb & ->)].
  - rewrite substring_prefix by lia.
    exists (pathname baseUrl). repeat split; auto.
  - rewrite substring_prefix by (rewrite Hp, length_app; simpl; lia).
    exists b.
    replace (Z.to_nat (0 + Z.of_nat (length a) + 1))
      with (length (a ++ [SLASH])) by (rewrite length_app; simpl; lia).
    assert (Hdir : firstn (length (a ++ [SLASH])) (pathname baseUrl)
                   = a ++ [SLASH]).
    { rewrite Hp.
      replace (a ++ SLASH :: b) with ((a ++ [SLASH]) ++ b)
        by now rewrite <- app_assoc.
      now rewrite firstn_app, Nat.sub_diag, firstn_all, firstn_O, app_nil_r. }
    rewrite Hdir, <- app_assoc. repeat split; eauto.
Qed.

Lemma basePathOf_wellFormed baseUrl :
  wellFormed (pathname baseUrl) = true ->
  wellFormed (basePathOf baseUrl) = true.
Proof.
  intros H. destruct (basePathOf_spec baseUrl) as (file & Hp & _ & [->|[d Hd]]);
    [reflexivity|].
  rewrite Hd in *. rewrite Hp, <- app_assoc in H.
  apply wellFormed_app_unit_inv in H as [H _]; [|reflexivity].
  now apply wellFormed_app.
Qed.

(** *** The resolver *)

Lemma resolveUrl_spec url baseOrigin basePath :
  Spec.resolve baseOrigin basePath url (resolveUrl url baseOrigin basePath).
Proof.
  unfold resolveUrl.
  destruct (startsWith url (lit "http://")) eqn:E1.
  { cbn [orb]. constructor. now left. }
  destruct (startsWith url (lit "https://")) eqn:E2.
  { cbn [orb]. constructor. now right. }
  cbn [orb]. destruct (startsWith url (lit "//")) eqn:E3.
  { now constructor. }
  destruct (startsWith url (lit "/")) eqn:E4; now constructor.
Qed.

Lemma resolveUrl_wellFormed url baseOrigin basePath :
  wellFormed url = true -> wellFormed baseOrigin = true ->
  wellFormed basePath = true ->
  wellFormed (resolveUrl url baseOrigin basePath) = true.
Proof.
  intros Hu Ho Hp. unfold resolveUrl.
  destruct (_ || _); [exact Hu|].
  destruct (startsWith url (lit "//")); [now apply wellFormed_app|].
  destruct (startsWith url (lit "/")); auto using wellFormed_app.
Qed.

(** *** The proxied form *)

Lemma proxied_is_Some proxyOrigin absoluteUrl :
  wellFormed absoluteUrl = true -> is_Some (proxied proxyOrigin absoluteUrl).
Proof.
  intros H. unfold proxied.
  destruct (encodeURIComponent_wellFormed _ H) as [e ->]. simpl. eauto.
Qed.

Lemma not_In_safe c e :
  isUnreserved c = false -> c <> PERCENT ->
  Forall (fun d => isUnreserved d = true \/ d = PERCENT) e -> ~ In c e.
Proof.
  intros Hu Hp He Hin. rewrite Forall_forall in He.
  destruct (He c Hin); congruence.
Qed.

Lemma proxied_Forall (P : N -> Prop) proxyOrigin absoluteUrl out :
  Forall P proxyOrigin ->
  (forall c, isUnreserved c = true \/ c = PERCENT -> P c) ->
  Forall P (lit "/?url=") ->
  proxied proxyOrigin absoluteUrl = Some out -> Forall P out.
Proof.
  intros Hpo Hsafe Hlit. unfold proxied. intros H.
  destruct (encodeURIComponent absoluteUrl) as [e|] eqn:He;
    cbn in H; [|discriminate].
  apply (inj Some) in H as <-. apply encodeURIComponent_safe in He.
  apply Forall_app; split; [exact Hpo|].
  apply Forall_app; split; [exact Hlit|].
  eapply Forall_impl; [|exact He]. exact Hsafe.
Qed.

(** *** Trimming does not hide the attribute name *)

Lemma includes_trimStart p0 p s :
  isWhiteSpace p0 = false ->
  includes (trimStart s) (p0 :: p) = includes s (p0 :: p).
Proof.
  intros Hp. induction s as [|c s IH]; [reflexivity|].
  simpl trimStart. destruct (isWhiteSpace c) eqn:Hc; [|reflexivity].
  rewrite IH. simpl. destruct (N.eqb_spec c p0) as [->|_]; [congruence|].
  reflexivity.
Qed.

Lemma includes_rev s p : includes (rev s) (rev p) = includes s p.
Proof.
  apply eq_true_iff_eq. rewrite !includes_spec. split.
  - intros (a & b & H). exists (rev b), (rev a).
    apply (f_equal (@rev N)) in H.
    rewrite rev_involutive, !rev_app_distr, rev_involutive in H.
    now rewrite H, app_assoc.
  - intros (a & b & ->). exists (rev b), (rev a).
    now rewrite !rev_app_distr, app_assoc.
Qed.

Lemma includes_trim_attr s :
  includes (trim s) URI_ATTR = includes s URI_ATTR.
Proof.
  unfold trim, trimEnd.
  rewrite <- (rev_involutive URI_ATTR) at 1. rewrite includes_rev.
  change (rev URI_ATTR) with [34; 61; 73; 82; 85]%N.
  rewrite includes_trimStart by reflexivity.
  change [34; 61; 73; 82; 85]%N with (rev URI_ATTR).
  rewrite includes_rev.
  change URI_ATTR with [85; 82; 73; 61; 34]%N.
  now rewrite includes_trimStart by reflexivity.
Qed.

(** *** One line *)

Lemma rewriteLine_media baseOrigin basePath proxyOrigin line :
  isDirective (trim line) = false ->
  rewriteLine baseOrigin basePath proxyOrigin line =
    proxied proxyOrigin (resolveUrl (trim line) baseOrigin basePath).
Proof. unfold rewriteLine. now intros ->. Qed.

Lemma rewriteLine_directive baseOrigin basePath proxyOrigin line :
  isDirective (trim line) = true ->
  rewriteLine baseOrigin basePath proxyOrigin line =
    replaceURI (replaceKeyUri baseOrigin basePath proxyOrigin) line.
Proof.
  unfold rewriteLine. intros ->.
  destruct (includes (trim line) URI_ATTR) eqn:E; [reflexivity|].
  rewrite includes_trim_attr in E. now rewrite replaceURI_no_attr.
Qed.

Lemma replaceKeyUri_is_Some baseOrigin basePath proxyOrigin uri :
  wellFormed baseOrigin = true -> wellFormed basePath = true ->
  wellFormed uri = true ->
  is_Some (replaceKeyUri baseOrigin basePath proxyOrigin uri).
Proof.
  intros Ho Hp Hu. unfold replaceKeyUri.
  destruct (proxied_is_Some proxyOrigin (resolveUrl uri baseOrigin basePath))
    as [q ->]; [now apply resolveUrl_wellFormed|].
  cbn. eauto.
Qed.

Lemma rewriteLine_is_Some baseOrigin basePath proxyOrigin line :
  wellFormed baseOrigin = true -> wellFormed basePath = true ->
  wellFormed line = true ->
  is_Some (rewriteLine baseOrigin basePath proxyOrigin line).
Proof.
  intros Ho Hp Hl. destruct (isDirective (trim line)) eqn:E.
  - rewrite rewriteLine_directive by exact E.
    apply replaceURI_is_Some.
    + intros uri Hu. now apply replaceKeyUri_is_Some.
    + now exists [].
  - rewrite rewriteLine_media by exact E.
    apply proxied_is_Some, resolveUrl_wellFormed; auto.
    now apply wellFormed_trim.
Qed.

Lemma Forall_not_In (c : N) (l : jsstring) :
  Forall (fun d => d <> c) l <-> ~ In c l.
Proof.
  rewrite Forall_forall. split.
  - intros H Hin. now apply (H c).
  - intros H d Hd ->. contradiction.
Qed.

Lemma safe_not_LF c : isUnreserved c = true \/ c = PERCENT -> c <> LF.
Proof. intros [H| ->] E; [subst c|]; discriminate. Qed.

Lemma safe_not_QUOTE c : isUnreserved c = true \/ c = PERCENT -> c <> QUOTE.
Proof. intros [H| ->] E; [subst c|]; discriminate. Qed.

(** A rewritten line has a line feed only if the proxy origin or the
    line had one. *)
Lemma rewriteLine_no_LF baseOrigin basePath proxyOrigin line out :
  ~ In LF proxyOrigin -> ~ In LF line ->
  rewriteLine baseOrigin basePath proxyOrigin line = Some out ->
  ~ In LF out.
Proof.
  intros Hpo Hl. rewrite <- Forall_not_In in Hpo, Hl |- *.
  assert (Hprox : forall u q, proxied proxyOrigin u = Some q ->
                              Forall (fun d => d <> LF) q).
  { intros u q. apply proxied_Forall; auto using safe_not_LF.
    apply Forall_not_In. vm_compute. intuition discriminate. }
  destruct (isDirective (trim line)) eqn:E.
  - rewrite rewriteLine_directive by exact E.
    apply replaceURI_Forall; [|exact Hl].
    intros uri r. unfold replaceKeyUri.
    destruct (proxied proxyOrigin _) as [q|] eqn:Hq; cbn; [|discriminate].
    intros H. apply (inj Some) in H as <-.
    apply Forall_app. split; [apply Forall_not_In; vm_compute;
                              intuition discriminate|].
    apply Forall_app. split; [exact (Hprox _ q Hq)|].
    constructor; [discriminate | constructor].
  - rewrite rewriteLine_media by exact E. apply Hprox.
Qed.

(** *** The whole playlist *)

Lemma rewriteM3u8_lines content baseUrl proxyOrigin :
  wellFormed content = true ->
  wellFormed (origin baseUrl) = true ->
  wellFormed (pathname baseUrl) = true ->
  exists outs,
    rewriteM3u8 content baseUrl proxyOrigin = Some (join outs [LF])
    /\ Forall2 (fun line out =>
                  rewriteLine (origin baseUrl) (basePathOf baseUrl)
                    proxyOrigin line = Some out)
         (split content LF) outs.
Proof.
  intros Hc Ho Hp. unfold rewriteM3u8.
  destruct (mapM_is_Some_2
              (rewriteLine (origin baseUrl) (basePathOf baseUrl) proxyOrigin)
              (split content LF)) as [outs Houts].
  - eapply Forall_impl; [|apply wellFormed_split, Hc].
    intros line Hl. apply rewriteLine_is_Some; auto.
    now apply basePathOf_wellFormed.
  - exists outs. rewrite Houts. split; [reflexivity|].
    now apply mapM_Some_1.
Qed.

Lemma rewriteM3u8_at content baseUrl proxyOrigin :
  wellFormed content = true ->
  wellFormed (origin baseUrl) = true ->
  wellFormed (pathname baseUrl) = true ->
  exists outs,
    rewriteM3u8 content baseUrl proxyOrigin = Some (join outs [LF])
    /\ length outs = length (split content LF)
    /\ forall i line,
         split content LF !! i = Some line ->
         outs !! i = rewriteLine (origin baseUrl) (basePathOf baseUrl)
                       proxyOrigin line.
Proof.
  intros Hc Ho Hp.
  destruct (rewriteM3u8_lines content baseUrl proxyOrigin Hc Ho Hp)
    as (outs & Hout & Hall).
  exists outs. split; [exact Hout|]. split.
  - symmetry. eapply Forall2_length, Hall.
  - intros i line Hi.
    destruct (Forall2_lookup_l _ _ _ _ _ Hall Hi) as (out & Ho' & Hr).
    now rewrite Ho', Hr.
Qed.



End RewriterFacts.

(** C1.  In a well-formed playlist fetched from [baseUrl], every line
    that is a media reference (its trimmed form is neither empty nor a
    directive) is replaced by the proxy origin, the text [/?url=] and the
    percent-encoding of the absolute URL, where the absolute URL is the
    trimmed line resolved by its class against the base origin and the
    base path truncated after its last slash.  For the base
    [https://cdn.example.com/videos/abc/index.m3u8] the line [seg001.ts]
    becomes the proxy origin followed by
    [/?url=https%3A%2F%2Fcdn.example.com%2Fvideos%2Fabc%2Fseg001.ts]. *)
Theorem rewriteM3u8_media_reference :
  (forall content baseUrl proxyOrigin,
      wellFormed content = true ->
      wellFormed (origin baseUrl) = true ->
      wellFormed (pathname baseUrl) = true ->
      exists outs,
        rewriteM3u8 content baseUrl proxyOrigin = Some (join outs [LF])
        /\ length outs = length (split content LF)
        /\ forall i line,
             split content LF !! i = Some line ->
             isDirective (trim line) = false ->
             exists absoluteURL encoded,
               Spec.directoryOf (pathname baseUrl) (basePathOf baseUrl)
               /\ Spec.resolve (origin baseUrl) (basePathOf baseUrl)
                    (trim line) absoluteURL
               /\ encodeURIComponent absoluteURL = Some encoded
               /\ outs !! i = Some (proxyOrigin ++ lit "/?url=" ++ encoded))
  /\ (forall proxyOrigin,
         rewriteM3u8 (lit "seg001.ts") Sample.base proxyOrigin =
           Some (proxyOrigin
                 ++ lit "/?url=https%3A%2F%2Fcdn.example.com%2Fvideos%2Fabc%2Fseg001.ts")).
Proof.
  split.
  - intros content baseUrl proxyOrigin Hc Ho Hp.
    destruct (rewriteM3u8_at content baseUrl proxyOrigin Hc Ho Hp)
      as (outs & Hout & Hlen & Hat).
    exists outs. split; [exact Hout|]. split; [exact Hlen|].
    intros i line Hi Hmedia.
    assert (Hline : wellFormed line = true).
    { pose proof (wellFormed_split content Hc) as Hall.
      rewrite Forall_forall in Hall. apply Hall.
      apply list_elem_of_In. eapply list_elem_of_lookup_2, Hi. }
    set (absoluteURL :=
           resolveUrl (trim line) (origin baseUrl) (basePathOf baseUrl)).
    destruct (encodeURIComponent_wellFormed absoluteURL) as [encoded He].
    { apply resolveUrl_wellFormed; auto using wellFormed_trim,
        basePathOf_wellFormed. }
    exists absoluteURL, encoded.
    split; [apply basePathOf_spec|]. split; [apply resolveUrl_spec|].
    split; [exact He|].
    rewrite (Hat i line Hi), rewriteLine_media by exact Hmedia.
    unfold proxied. fold absoluteURL. now rewrite He.
  - intros proxyOrigin. vm_compute. reflexivity.
Qed.

Lemma rewriteM3u8_media_reference_witness :
  exists outs,
    rewriteM3u8 Sample.playlist Sample.base Sample.proxyOrigin
    = Some (join outs [LF])
    /\ length outs = length (split Sample.playlist LF)
    /\ forall i line,
         split Sample.playlist LF !! i = Some line ->
         isDirective (trim line) = false ->
         exists absoluteURL encoded,
           Spec.directoryOf (pathname Sample.base) (basePathOf Sample.base)
           /\ Spec.resolve (origin Sample.base) (basePathOf Sample.base)
                (trim line) absoluteURL
           /\ encodeURIComponent absoluteURL = Some encoded
           /\ outs !! i
              = Some (Sample.proxyOrigin ++ lit "/?url=" ++ encoded).
Proof.
  apply (proj1 rewriteM3u8_media_reference
           Sample.playlist Sample.base Sample.proxyOrigin); reflexivity.
Defined.



(** C6.  A line that is blank or a directive and holds no key-URI
    attribute name comes out of the rewrite unchanged; a playlist made of
    such lines only is returned as it is, so rewriting it again changes
    nothing. *)
Theorem rewriteM3u8_directives_unchanged :
  (forall content baseUrl proxyOrigin i line,
      wellFormed content = true ->
      wellFormed (origin baseUrl) = true ->
      wellFormed (pathname baseUrl) = true ->
      split content LF !! i = Some line ->
      isDirective (trim line) = true ->
      includes line URI_ATTR = false ->
      exists outs,
        rewriteM3u8 content baseUrl proxyOrigin = Some (join outs [LF])
        /\ length outs = length (split content LF)
        /\ outs !! i = Some line)
  /\ (forall content baseUrl proxyOrigin,
         Forall (fun line => isDirective (trim line) = true
                             /\ includes line URI_ATTR = false)
           (split content LF) ->
         rewriteM3u8 content baseUrl proxyOrigin = Some content
         /\ (out ← rewriteM3u8 content baseUrl proxyOrigin;
             rewriteM3u8 out baseUrl proxyOrigin) = Some content).
Proof.
  split.
  - intros content baseUrl proxyOrigin i line Hc Ho Hp Hi Hdir Hinc.
    destruct (rewriteM3u8_at content baseUrl proxyOrigin Hc Ho Hp)
      as (outs & Hout & Hlen & Hat).
    exists outs. split; [exact Hout|]. split; [exact Hlen|].
    rewrite (Hat i line Hi), rewriteLine_directive by exact Hdir.
    now apply replaceURI_no_attr.
  - intros content baseUrl proxyOrigin Hall.
    assert (Hsame : rewriteM3u8 content baseUrl proxyOrigin = Some content).
    { unfold rewriteM3u8.
      assert (mapM (rewriteLine (origin baseUrl) (basePathOf baseUrl)
                      proxyOrigin) (split content LF)
              = Some (split content LF)) as ->.
      { apply mapM_Some_2. induction Hall as [|line ls [Hdir Hinc] _ IH];
          constructor; [|exact IH].
        rewrite rewriteLine_directive by exact Hdir.
        now apply replaceURI_no_attr. }
      cbn. now rewrite join_split. }
    split; [exact Hsame|]. rewrite Hsame. cbn. exact Hsame.
Qed.

Lemma rewriteM3u8_directives_unchanged_witness :
  rewriteM3u8 Sample.directivesOnly Sample.base Sample.proxyOrigin
  = Some Sample.directivesOnly
  /\ (out ← rewriteM3u8 Sample.directivesOnly Sample.base Sample.proxyOrigin;
      rewriteM3u8 out Sample.base Sample.proxyOrigin)
     = Some Sample.directivesOnly.
Proof.
  apply (proj2 rewriteM3u8_directives_unchanged).
  vm_compute. repeat constructor.
Defined.

(** C10.  For a well-formed playlist, a base URL with well-formed origin
    and path, and a proxy origin without a line feed, the rewrite returns
    a text with as many lines as the playlist has. *)
Theorem rewriteM3u8_line_count content baseUrl proxyOrigin :
  wellFormed content = true ->
  wellFormed (origin baseUrl) = true ->
  wellFormed (pathname baseUrl) = true ->
  ~ In LF proxyOrigin ->
  exists out,
    rewriteM3u8 content baseUrl proxyOrigin = Some out
    /\ length (split out LF) = length (split content LF).
Proof.
  intros Hc Ho Hp Hlf.
  destruct (rewriteM3u8_lines content baseUrl proxyOrigin Hc Ho Hp)
    as (outs & Hout & Hall).
  exists (join outs [LF]). split; [exact Hout|].
  rewrite split_join.
  - symmetry. eapply Forall2_length, Hall.
  - pose proof (split_not_nil content LF) as Hne.
    destruct Hall; [contradiction | discriminate].
  - pose proof (split_no_sep content LF) as Hlines. clear Hout.
    induction Hall as [|line out ls os Hr _ IH]; [constructor|].
    inversion Hlines as [|? ? Hline Hls]; subst. constructor.
    + exact (rewriteLine_no_LF _ _ _ _ _ Hlf Hline Hr).
    + exact (IH Hls).
Qed.

Lemma rewriteM3u8_line_count_witness :
  exists out,
    rewriteM3u8 Sample.playlist Sample.base Sample.proxyOrigin = Some out
    /\ length (split out LF) = length (split Sample.playlist LF).
Proof.
  apply (rewriteM3u8_line_count
           Sample.playlist Sample.base Sample.proxyOrigin);
    try reflexivity.
  vm_compute. intuition discriminate.
Defined.

(** * Target validation *)

Section WorkersValidation.

Variable parseURL : jsstring -> option URL.
Variable upstream : Workers.ProxyRequest -> Workers.Upstream.
Variable getHelpPage : jsstring -> jsstring.

Lemma truthy_app s t : s <> [] -> truthy (s ++ t) = true.
Proof. destruct s; [contradiction | reflexivity]. Qed.

Lemma truthy_supplied val :
  Spec.supplied (Some val) = if truthy val then Some val else None.
Proof. reflexivity. Qed.

(** The Workers variant rejects every target equal to its own origin or
    prefixed by it, whatever follows the origin: the loop check is the
    first statement of [handleProxyRequest], and [handleRequest] reaches
    it for every method but OPTIONS and every path but the health
    check.  The reply is the 400 with the loop message. *)
Lemma workers_loop_detected request currentOrigin rest :
  Workers.handleProxyRequest parseURL upstream request
    (currentOrigin ++ rest) currentOrigin
  = Workers.errorResponse (lit "Loop detected: self-fetch blocked") 400
  /\ (strictEquals (Workers.req_method request) (lit "OPTIONS") = false ->
      strictEquals (pathname (Workers.req_url request)) (lit "/health") = false ->
      origin (Workers.req_url request) <> [] ->
      Workers.req_searchParam_url request
      = Some (origin (Workers.req_url request) ++ rest) ->
      Workers.res_status
        (Workers.handleRequest parseURL upstream getHelpPage request) = 400%N).
Proof.
  assert (Hloop : forall o, Workers.handleProxyRequest parseURL upstream request
                              (o ++ rest) o
            = Workers.errorResponse (lit "Loop detected: self-fetch blocked") 400).
  { intros o. unfold Workers.handleProxyRequest.
    now rewrite startsWith_app. }
  split; [apply Hloop|].
  intros Hm Hp Ho Hparam. unfold Workers.handleRequest.
  rewrite Hm, Hp, Hparam, truthy_app by exact Ho. now rewrite Hloop.
Qed.

End WorkersValidation.

(** C8 (counterexample).  A target under the Worker's own origin whose
    port does not parse is answered by the loop check, not by one of the
    two format errors. *)
Lemma invalid_target_under_own_origin_is_loop :
  Sample.parseURL Sample.badPortTarget = None
  /\ Workers.handleProxyRequest Sample.parseURL Sample.silentUpstream
       (Sample.workerRequest (Some Sample.badPortTarget))
       Sample.badPortTarget Sample.proxyOrigin
     = Workers.errorResponse (lit "Loop detected: self-fetch blocked") 400
  /\ Workers.errorResponse (lit "Loop detected: self-fetch blocked") 400
     <> Workers.errorResponse (lit "Invalid target URL") 400
  /\ Workers.errorResponse (lit "Loop detected: self-fetch blocked") 400
     <> Workers.errorResponse (lit "Invalid URL format") 400.
Proof.
  split; [reflexivity|]. split; [reflexivity|].
  split; intros H; apply (f_equal Workers.res_body) in H;
    vm_compute in H; discriminate.
Qed.

(** C8 (amended).  In the Workers variant a target that does not start
    with the proxy's own origin is rejected with status 400 and a format
    message when it fails the scheme test [^https?://] ([Invalid target
    URL]) or passes it and does not parse ([Invalid URL format]); a target
    that starts with the proxy's own origin is rejected by the loop check,
    with status 400 as well, whatever its format.  In the Node variant a
    target that does not parse is answered 400 [Invalid URL]. *)
Theorem invalid_target_rejected :
  (forall parseURL upstream request raw currentOrigin,
      startsWith raw currentOrigin = false ->
      Workers.testHttpScheme raw = false \/ parseURL raw = None ->
      let response :=
        Workers.handleProxyRequest parseURL upstream request raw currentOrigin in
      Workers.res_status response = 400%N
      /\ (response = Workers.errorResponse (lit "Invalid target URL") 400
          \/ response = Workers.errorResponse (lit "Invalid URL format") 400)
      /\ (Workers.testHttpScheme raw = false ->
          response = Workers.errorResponse (lit "Invalid target URL") 400)
      /\ (Workers.testHttpScheme raw = true ->
          response = Workers.errorResponse (lit "Invalid URL format") 400))
  /\ (forall parseURL upstream request raw currentOrigin,
         startsWith raw currentOrigin = true ->
         let response :=
           Workers.handleProxyRequest parseURL upstream request raw
             currentOrigin in
         Workers.res_status response = 400%N
         /\ response
            = Workers.errorResponse (lit "Loop detected: self-fetch blocked") 400)
  /\ (forall parseURL req raw,
         parseURL raw = None ->
         Node.proxy parseURL req raw = Node.Replied Node.invalidUrl
         /\ Node.sr_statusCode Node.invalidUrl = 400%N).
Proof.
  split; [|split].
  - intros parseURL upstream request raw currentOrigin Hloop Hbad response.
    subst response. unfold Workers.handleProxyRequest. rewrite Hloop.
    destruct (Workers.testHttpScheme raw) eqn:Hscheme; cbn [negb].
    + destruct Hbad as [|Hparse]; [discriminate|]. rewrite Hparse.
      split; [reflexivity|]. split; [right; reflexivity|].
      split; [discriminate | intros _; reflexivity].
    + split; [reflexivity|]. split; [left; reflexivity|].
      split; [intros _; reflexivity | discriminate].
  - intros parseURL upstream request raw currentOrigin Hloop response.
    subst response. unfold Workers.handleProxyRequest. rewrite Hloop.
    split; reflexivity.
  - intros parseURL req raw Hbad. split; [|reflexivity].
    unfold Node.proxy. now rewrite Hbad.
Qed.

Lemma invalid_target_rejected_witness :
  (let response :=
     Workers.handleProxyRequest Sample.parseURL Sample.silentUpstream
       (Sample.workerRequest (Some (lit "ftp://example.com/file.ts")))
       (lit "ftp://example.com/file.ts") Sample.proxyOrigin in
   Workers.res_status response = 400%N
   /\ (response = Workers.errorResponse (lit "Invalid target URL") 400
       \/ response = Workers.errorResponse (lit "Invalid URL format") 400)
   /\ (Workers.testHttpScheme (lit "ftp://example.com/file.ts") = false ->
       response = Workers.errorResponse (lit "Invalid target URL") 400)
   /\ (Workers.testHttpScheme (lit "ftp://example.com/file.ts") = true ->
       response = Workers.errorResponse (lit "Invalid URL format") 400))
  /\ (let response :=
        Workers.handleProxyRequest Sample.parseURL Sample.silentUpstream
          (Sample.workerRequest (Some Sample.badPortTarget))
          Sample.badPortTarget Sample.proxyOrigin in
      Workers.res_status response = 400%N
      /\ response
         = Workers.errorResponse (lit "Loop detected: self-fetch blocked") 400)
  /\ (Node.proxy Sample.parseURL (Sample.nodeRequest (Some (lit "not-a-url")))
        (lit "not-a-url") = Node.Replied Node.invalidUrl
      /\ Node.sr_statusCode Node.invalidUrl = 400%N).
Proof.
  split; [|split].
  - apply (proj1 invalid_target_rejected); [reflexivity | left; reflexivity].
  - apply (proj1 (proj2 invalid_target_rejected)). reflexivity.
  - apply (proj2 (proj2 invalid_target_rejected)). reflexivity.
Defined.

(** C9 (counterexample).  A request without the [url] parameter is
    answered with status 200 by both variants. *)
Lemma missing_parameter_is_not_400 :
  Workers.res_status
    (Workers.handleRequest Sample.parseURL Sample.silentUpstream
       Sample.helpPage (Sample.workerRequest None)) = 200%N
  /\ exists r,
       Node.handler [] Sample.parseURL (Sample.nodeRequest None)
       = Node.Replied r /\ Node.sr_statusCode r = 200%N.
Proof. split; [reflexivity|]. eexists. split; reflexivity. Qed.

(** C9 (amended).  When the [url] parameter is absent or empty, and the
    request is neither a preflight nor the health check, the Workers
    variant answers with status 200, the help page of its own origin,
    content type [text/html] and the CORS headers, and the Node variant
    does the same for every such request whose own URL parses; the target
    validation is not run. *)
Theorem missing_parameter_help_page :
  (forall parseURL upstream getHelpPage request,
      strictEquals (Workers.req_method request) (lit "OPTIONS") = false ->
      strictEquals (pathname (Workers.req_url request)) (lit "/health") = false ->
      Spec.supplied (Workers.req_searchParam_url request) = None ->
      let response :=
        Workers.handleRequest parseURL upstream getHelpPage request in
      Workers.res_status response = 200%N
      /\ Workers.res_body response
         = HelpPage (getHelpPage (origin (Workers.req_url request)))
      /\ Workers.res_headers response
         = Workers.headers_init
             ((lit "Content-Type", lit "text/html; charset=utf-8")
              :: CORS_HEADERS))
  /\ (forall ACCESS_PASSWORD parseURL req reqUrl,
         strictEquals (Node.im_method req) (lit "OPTIONS") = false ->
         Node.im_reqUrl req = Some reqUrl ->
         strictEquals (Node.ru_pathname reqUrl) (lit "/health") = false ->
         Spec.supplied (Node.ru_searchParam_url reqUrl) = None ->
         Node.handler ACCESS_PASSWORD parseURL req
         = Node.Replied
             {| Node.sr_statusCode := 200;
                Node.sr_headers :=
                  Node.objectOf
                    ((lit "Content-Type", lit "text/html; charset=utf-8")
                     :: CORS_HEADERS);
                Node.sr_body :=
                  HelpPage (Node.getHelpPage (Node.hostOrigin req)) |}).
Proof.
  split.
  - intros parseURL upstream getHelpPage request Hm Hp Hparam response.
    subst response. unfold Workers.handleRequest. rewrite Hm, Hp.
    destruct (Workers.req_searchParam_url request) as [val|];
      [|split; [|split]; reflexivity].
    rewrite truthy_supplied in Hparam.
    destruct (truthy val); [discriminate | split; [|split]; reflexivity].
  - intros ACCESS_PASSWORD parseURL req reqUrl Hm Hurl Hp Hparam.
    unfold Node.handler. rewrite Hm, Hurl, Hp.
    destruct (Node.ru_searchParam_url reqUrl) as [val|]; [|reflexivity].
    rewrite truthy_supplied in Hparam.
    destruct (truthy val); [discriminate | reflexivity].
Qed.

Lemma missing_parameter_help_page_witness :
  (let response :=
     Workers.handleRequest Sample.parseURL Sample.silentUpstream
       Sample.helpPage (Sample.workerRequest (Some [])) in
   Workers.res_status response = 200%N
   /\ Workers.res_body response
      = HelpPage (Sample.helpPage
                    (origin (Workers.req_url (Sample.workerRequest (Some [])))))
   /\ Workers.res_headers response
      = Workers.headers_init
          ((lit "Content-Type", lit "text/html; charset=utf-8")
           :: CORS_HEADERS))
  /\ Node.handler [] Sample.parseURL (Sample.nodeRequest None)
     = Node.Replied
         {| Node.sr_statusCode := 200;
            Node.sr_headers :=
              Node.objectOf
                ((lit "Content-Type", lit "text/html; charset=utf-8")
                 :: CORS_HEADERS);
            Node.sr_body :=
              HelpPage (Node.getHelpPage
                          (Node.hostOrigin (Sample.nodeRequest None))) |}.
Proof.
  split.
  - apply (proj1 missing_parameter_help_page); reflexivity.
  - eapply (proj2 missing_parameter_help_page); reflexivity.
Defined.

(** * Header translation *)

Section HeaderFacts.

Implicit Types entries originHeaders : list (jsstring * jsstring).
Implicit Types key name : jsstring.

Lemma strictEquals_sym s t : strictEquals s t = strictEquals t s.
Proof.
  apply eq_true_iff_eq. rewrite !strictEquals_spec. split; congruence.
Qed.

Lemma strictEquals_false s t : strictEquals s t = false <-> s <> t.
Proof.
  rewrite <- strictEquals_spec. destruct (strictEquals s t); split;
    congruence.
Qed.

Lemma setHas_spec set name : Workers.setHas set name = true <-> In name set.
Proof.
  unfold Workers.setHas. rewrite existsb_exists. split.
  - intros (x & Hx & Heq). apply strictEquals_spec in Heq. now subst.
  - intros H. exists name. split; [exact H | apply strictEquals_refl].
Qed.

(** Successive [set] calls: the last entry for a name wins, names
    untouched keep their value. *)
Lemma foldl_set_lookup (h : Workers.Headers) entries key :
  foldl (fun h kv => Workers.headers_set h kv.1 kv.2) h entries !! key
  = match Spec.lastValue entries key with
    | Some v => Some v
    | None => h !! key
    end.
Proof.
  induction entries as [|kv entries IH] using rev_ind; [reflexivity|].
  rewrite foldl_snoc. unfold Spec.lastValue, Workers.headers_set.
  rewrite rev_unit. cbn [List.find].
  destruct (strictEquals (toLowerCase kv.1) key) eqn:E.
  - apply strictEquals_spec in E. subst key. cbn. apply lookup_insert_eq.
  - apply strictEquals_false in E. rewrite lookup_insert_ne by exact E.
    exact IH.
Qed.

Lemma foldl_insert_lookup (o : Node.JSObject) entries key :
  foldl (fun o kv => <[kv.1 := kv.2]> o) o entries !! key
  = match Spec.lastExact entries key with
    | Some v => Some v
    | None => o !! key
    end.
Proof.
  induction entries as [|kv entries IH] using rev_ind; [reflexivity|].
  rewrite foldl_snoc. unfold Spec.lastExact.
  rewrite rev_unit. cbn [List.find].
  destruct (strictEquals kv.1 key) eqn:E.
  - apply strictEquals_spec in E. subst key. cbn. apply lookup_insert_eq.
  - apply strictEquals_false in E. rewrite lookup_insert_ne by exact E.
    exact IH.
Qed.

(** The copy loops skip exactly the entries whose lower-cased name is in
    the exclusion set. *)
Lemma workers_copy_loop (h : Workers.Headers) originHeaders :
  foldl (fun h kv =>
           if Workers.setHas Workers.excludeHeaders (toLowerCase kv.1) then h
           else Workers.headers_set h kv.1 kv.2) h originHeaders
  = foldl (fun h kv => Workers.headers_set h kv.1 kv.2) h
      (List.filter
         (fun kv => negb (Workers.setHas Workers.excludeHeaders
                            (toLowerCase kv.1)))
         originHeaders).
Proof.
  revert h. induction originHeaders as [|kv l IH]; intros h; [reflexivity|].
  cbn [foldl List.filter].
  destruct (Workers.setHas Workers.excludeHeaders (toLowerCase kv.1));
    cbn [negb foldl]; apply IH.
Qed.

Lemma node_copy_loop (o : Node.JSObject) originHeaders :
  foldl (fun o kv =>
           if Node.setHas Node.EXCLUDE_HEADERS (toLowerCase kv.1) then o
           else <[kv.1 := kv.2]> o) o originHeaders
  = foldl (fun o kv => <[kv.1 := kv.2]> o) o
      (List.filter
         (fun kv => negb (Node.setHas Node.EXCLUDE_HEADERS (toLowerCase kv.1)))
         originHeaders).
Proof.
  revert o. induction originHeaders as [|kv l IH]; intros o; [reflexivity|].
  cbn [foldl List.filter].
  destruct (Node.setHas Node.EXCLUDE_HEADERS (toLowerCase kv.1));
    cbn [negb foldl]; apply IH.
Qed.

(** Looking a name up after filtering on a property of the name. *)
Lemma find_filter_agree {A} (p keep : A -> bool) (l : list A) :
  (forall x, p x = true -> keep x = true) ->
  List.find p (List.filter keep l) = List.find p l.
Proof.
  intros H. induction l as [|x l IH]; [reflexivity|]. cbn.
  destruct (keep x) eqn:Ek; cbn.
  - now rewrite IH.
  - destruct (p x) eqn:Ep; [|exact IH]. apply H in Ep. congruence.
Qed.

Lemma find_filter_none {A} (p keep : A -> bool) (l : list A) :
  (forall x, p x = true -> keep x = false) ->
  List.find p (List.filter keep l) = None.
Proof.
  intros H. induction l as [|x l IH]; [reflexivity|]. cbn.
  destruct (keep x) eqn:Ek; cbn; [|exact IH].
  destruct (p x) eqn:Ep; [|exact IH]. apply H in Ep. congruence.
Qed.

(** The five CORS names are in both exclusion sets, and the CORS table
    gives each its fixed value. *)
Lemma cors_names_excluded name value :
  In (name, value) CORS_HEADERS ->
  Workers.setHas Workers.excludeHeaders (toLowerCase name) = true
  /\ Node.setHas Node.EXCLUDE_HEADERS (toLowerCase name) = true
  /\ Spec.lastValue CORS_HEADERS (toLowerCase name) = Some value
  /\ Spec.lastExact CORS_HEADERS name = Some value.
Proof.
  unfold CORS_HEADERS. cbn [In].
  intros [H|[H|[H|[H|[H|[]]]]]]; apply pair_equal_spec in H as [<- <-];
    repeat split; vm_compute; reflexivity.
Qed.

Lemma lastValue_cors_none key :
  Workers.setHas Workers.excludeHeaders key = false ->
  Spec.lastValue CORS_HEADERS key = None.
Proof.
  intros Hkey. unfold Spec.lastValue.
  destruct (List.find _ (rev CORS_HEADERS)) as [[n v]|] eqn:F; [|reflexivity].
  apply find_some in F as [Hin Heq]. apply in_rev in Hin.
  apply strictEquals_spec in Heq. cbn [fst] in Heq. subst key.
  apply cors_names_excluded in Hin as [H _]. congruence.
Qed.

Lemma lastExact_cors_none key :
  Node.setHas Node.EXCLUDE_HEADERS (toLowerCase key) = false ->
  Spec.lastExact CORS_HEADERS key = None.
Proof.
  intros Hkey. unfold Spec.lastExact.
  destruct (List.find _ (rev CORS_HEADERS)) as [[n v]|] eqn:F; [|reflexivity].
  apply find_some in F as [Hin Heq]. apply in_rev in Hin.
  apply strictEquals_spec in Heq. cbn [fst] in Heq. subst key.
  apply cors_names_excluded in Hin as (_ & H & _). congruence.
Qed.

(** The downstream header map of the Workers variant, name by name. *)
Lemma workers_downstream_lookup originHeaders key :
  Workers.buildDownstreamHeaders originHeaders !! key
  = match Spec.lastValue CORS_HEADERS key with
    | Some v => Some v
    | None =>
        if Workers.setHas Workers.excludeHeaders key then None
        else Spec.lastValue originHeaders key
    end.
Proof.
  unfold Workers.buildDownstreamHeaders.
  rewrite foldl_set_lookup, workers_copy_loop, foldl_set_lookup, lookup_empty.
  destruct (Spec.lastValue CORS_HEADERS key); [reflexivity|].
  unfold Spec.lastValue. rewrite <- filter_rev.
  destruct (Workers.setHas Workers.excludeHeaders key) eqn:E.
  - rewrite find_filter_none; [reflexivity|].
    intros kv Hkv. apply strictEquals_spec in Hkv. now rewrite Hkv, E.
  - rewrite find_filter_agree.
    + now destruct (snd <$> _).
    + intros kv Hkv. apply strictEquals_spec in Hkv. now rewrite Hkv, E.
Qed.

(** The reply headers of the Node variant, property by property. *)
Lemma node_response_lookup originHeaders key :
  Node.buildResponseHeaders originHeaders !! key
  = if Node.setHas Node.EXCLUDE_HEADERS (toLowerCase key)
    then Spec.lastExact CORS_HEADERS key
    else Spec.lastExact originHeaders key.
Proof.
  unfold Node.buildResponseHeaders, Node.objectOf.
  rewrite node_copy_loop, !foldl_insert_lookup, lookup_empty.
  unfold Spec.lastExact at 1. rewrite <- filter_rev.
  destruct (Node.setHas Node.EXCLUDE_HEADERS (toLowerCase key)) eqn:E.
  - rewrite find_filter_none.
    + destruct (Spec.lastExact CORS_HEADERS key); reflexivity.
    + intros kv Hkv. apply strictEquals_spec in Hkv. now rewrite Hkv, E.
  - rewrite find_filter_agree.
    + fold (Spec.lastExact originHeaders key).
      rewrite (lastExact_cors_none key E).
      now destruct (Spec.lastExact originHeaders key).
    + intros kv Hkv. apply strictEquals_spec in Hkv. now rewrite Hkv, E.
Qed.

End HeaderFacts.

(** C3 (counterexample).  An origin header named
    [access-control-allow-private-network] is not in the exclusion set of
    either variant and reaches the client. *)
Lemma origin_access_control_header_survives :
  Workers.headers_get
    (Workers.buildDownstreamHeaders
       [(lit "access-control-allow-private-network", lit "true")])
    (lit "Access-Control-Allow-Private-Network") = Some (lit "true")
  /\ Node.buildResponseHeaders
       [(lit "access-control-allow-private-network", lit "true")]
     !! lit "access-control-allow-private-network" = Some (lit "true").
Proof. split; vm_compute; reflexivity. Qed.

(** C3 (amended).  Whatever the origin sent, the downstream headers of
    both variants hold no [content-encoding], [transfer-encoding],
    [connection], [keep-alive] or [access-control-allow-credentials]
    header, in whatever case the name is asked for, and the five CORS
    names carry the proxy's fixed values.  A name outside the exclusion
    set of the variant, other [access-control-] names included, is not
    stripped: it yields the last value the origin sent under it (in the
    Workers variant under any spelling of the name, in the Node variant
    under that very key).  Under an excluded name the Node variant keeps
    only its own CORS entries. *)
Theorem downstream_headers_policy :
  (forall originHeaders name,
      In (toLowerCase name)
        [lit "content-encoding"; lit "transfer-encoding"; lit "connection";
         lit "keep-alive"; lit "access-control-allow-credentials"] ->
      Workers.headers_get (Workers.buildDownstreamHeaders originHeaders) name
      = None)
  /\ (forall originHeaders name value,
         In (name, value) CORS_HEADERS ->
         Workers.headers_get (Workers.buildDownstreamHeaders originHeaders) name
         = Some value)
  /\ (forall originHeaders name,
         Workers.setHas Workers.excludeHeaders (toLowerCase name) = false ->
         Workers.headers_get (Workers.buildDownstreamHeaders originHeaders) name
         = Spec.lastValue originHeaders (toLowerCase name))
  /\ (forall originHeaders key,
         In (toLowerCase key)
           [lit "content-encoding"; lit "transfer-encoding"; lit "connection";
            lit "keep-alive"; lit "access-control-allow-credentials"] ->
         Node.buildResponseHeaders originHeaders !! key = None)
  /\ (forall originHeaders key,
         Node.setHas Node.EXCLUDE_HEADERS (toLowerCase key) = true ->
         Node.buildResponseHeaders originHeaders !! key
         = Node.objectOf CORS_HEADERS !! key)
  /\ (forall originHeaders name value,
         In (name, value) CORS_HEADERS ->
         Node.buildResponseHeaders originHeaders !! name = Some value)
  /\ (forall originHeaders key,
         Node.setHas Node.EXCLUDE_HEADERS (toLowerCase key) = false ->
         Node.buildResponseHeaders originHeaders !! key
         = Spec.lastExact originHeaders key).
Proof.
  repeat split.
  - intros originHeaders name Hname. unfold Workers.headers_get.
    rewrite workers_downstream_lookup.
    cbn [In] in Hname.
    destruct Hname as [<-|[<-|[<-|[<-|[<-|[]]]]]]; reflexivity.
  - intros originHeaders name value Hin. unfold Workers.headers_get.
    rewrite workers_downstream_lookup.
    apply cors_names_excluded in Hin as (_ & _ & -> & _). reflexivity.
  - intros originHeaders name Hname. unfold Workers.headers_get.
    rewrite workers_downstream_lookup, Hname.
    now rewrite lastValue_cors_none.
  - intros originHeaders key Hkey.
    rewrite node_response_lookup.
    assert (Hcors : Spec.lastExact CORS_HEADERS key = None).
    { unfold Spec.lastExact.
      destruct (List.find _ (rev CORS_HEADERS)) as [[n v]|] eqn:F;
        [|reflexivity].
      apply find_some in F as [Hin Heq]. apply in_rev in Hin.
      apply strictEquals_spec in Heq. cbn [fst] in Heq. subst key.
      exfalso. revert Hin Hkey. unfold CORS_HEADERS. cbn [In].
      intros [H|[H|[H|[H|[H|[]]]]]]; apply pair_equal_spec in H as [<- _];
        intros [E|[E|[E|[E|[E|[]]]]]]; vm_compute in E; discriminate. }
    rewrite Hcors. cbn [In] in Hkey.
    destruct Hkey as [<-|[<-|[<-|[<-|[<-|[]]]]]]; reflexivity.
  - intros originHeaders key Hkey.
    rewrite node_response_lookup, Hkey.
    unfold Node.objectOf. rewrite foldl_insert_lookup, lookup_empty.
    now destruct (Spec.lastExact CORS_HEADERS key).
  - intros originHeaders name value Hin.
    rewrite node_response_lookup.
    apply cors_names_excluded in Hin as (_ & -> & _ & ->). reflexivity.
  - intros originHeaders key Hkey.
    now rewrite node_response_lookup, Hkey.
Qed.

Lemma downstream_headers_policy_witness :
  Workers.headers_get
    (Workers.buildDownstreamHeaders
       [(lit "content-encoding", lit "gzip");
        (lit "access-control-allow-origin", lit "https://origin.example");
        (lit "content-type", lit "video/mp2t")])
    (lit "Content-Encoding") = None
  /\ Node.buildResponseHeaders
       [(lit "content-encoding", lit "gzip");
        (lit "access-control-allow-origin", lit "https://origin.example");
        (lit "content-type", lit "video/mp2t")]
     !! lit "content-encoding" = None.
Proof.
  split.
  - apply (proj1 downstream_headers_policy). cbn [In]. left. reflexivity.
  - apply (proj1 (proj2 (proj2 (proj2 downstream_headers_policy)))).
    cbn [In]. left. reflexivity.
Defined.

(** * The upstream request *)

(** Literal header names as explicit code units, so that lookups in a
    chain of insertions are decided by comparing constants. *)
Ltac closed_keys :=
  repeat match goal with
    | |- context [toLowerCase (lit ?s)] =>
        let v := eval vm_compute in (toLowerCase (lit s)) in
        change (toLowerCase (lit s)) with v
    | H : context [toLowerCase (lit ?s)] |- _ =>
        let v := eval vm_compute in (toLowerCase (lit s)) in
        change (toLowerCase (lit s)) with v in H
    end.

Ltac map_lookup :=
  repeat first
    [ rewrite lookup_insert_eq
    | rewrite lookup_insert_ne
        by (let H := fresh in intros H; vm_compute in H; discriminate)
    | rewrite lookup_empty ].

Section UpstreamFacts.

(** The upstream headers of the Workers variant: the three spoofed
    headers, the three copied ones when the inbound request supplies them
    (present and not empty), [Accept] defaulting to [*/*] when it does
    not supply one, and nothing else. *)
Lemma workers_upstream_headers :
  forall inbound targetURL,
    let headers := Workers.buildUpstreamHeaders inbound targetURL in
    Workers.headers_get headers (lit "Referer")
    = Some (origin targetURL ++ lit "/")
    /\ Workers.headers_get headers (lit "Origin") = Some (origin targetURL)
    /\ Workers.headers_get headers (lit "User-Agent") = Some USER_AGENT
    /\ Workers.headers_get headers (lit "Range")
       = Spec.supplied (Workers.headers_get inbound (lit "range"))
    /\ Workers.headers_get headers (lit "Accept-Language")
       = Spec.supplied (Workers.headers_get inbound (lit "accept-language"))
    /\ Workers.headers_get headers (lit "Accept")
       = Some (default (lit "*/*")
                 (Spec.supplied (Workers.headers_get inbound (lit "accept"))))
    /\ forall key,
         ~ In key [lit "referer"; lit "origin"; lit "user-agent";
                   lit "range"; lit "accept"; lit "accept-language"] ->
         headers !! key = None.
Proof.
  intros inbound targetURL headers. subst headers.
  unfold Workers.buildUpstreamHeaders, copyHeaders, Spec.supplied.
  cbn [foldl].
  unfold Workers.headers_has, Workers.headers_get, Workers.headers_set.
  closed_keys.
  destruct (inbound !! _) as [r|]; [destruct (truthy r)|];
    (destruct (inbound !! _) as [a|]; [destruct (truthy a)|]);
    (destruct (inbound !! _) as [l|]; [destruct (truthy l)|]);
    first
      [ rewrite bool_decide_eq_true_2 by (map_lookup; eauto)
      | rewrite bool_decide_eq_false_2
          by (map_lookup; intros [? ?]; discriminate) ];
    (repeat split; [map_lookup; reflexivity ..|]);
    intros key Hkey; vm_compute in Hkey;
    repeat (rewrite lookup_insert_ne by (intros <-; apply Hkey; tauto));
    apply lookup_empty.
Qed.

(** C7 (Node variant).  The default is tested on the property [Accept]
    while the inbound header is copied under the name [accept]: the test
    never finds a value, so [Accept: */*] is set on every upstream
    request, next to the copied [accept] when the client sent one. *)
Theorem node_accept_overridden :
  (forall req targetURL,
      Node.po_headers (Node.buildProxyOptions req targetURL) !! lit "Accept"
      = Some (lit "*/*"))
  /\ Node.im_headers (Sample.nodeRequest (Some (href Sample.base)))
     !! lit "accept" = Some (lit "application/json")
  /\ Node.po_headers
       (Node.buildProxyOptions (Sample.nodeRequest (Some (href Sample.base)))
          Sample.base) !! lit "accept" = Some (lit "application/json")
  /\ Node.po_headers
       (Node.buildProxyOptions (Sample.nodeRequest (Some (href Sample.base)))
          Sample.base) !! lit "Accept" = Some (lit "*/*").
Proof.
  split; [|repeat split; vm_compute; reflexivity].
  intros req targetURL. unfold Node.buildProxyOptions, copyHeaders.
  cbn [foldl Node.po_headers].
  destruct (Node.im_headers req !! _) as [r|]; [destruct (truthy r)|];
    (destruct (Node.im_headers req !! _) as [a|]; [destruct (truthy a)|]);
    (destruct (Node.im_headers req !! _) as [l|]; [destruct (truthy l)|]);
    map_lookup; reflexivity.
Qed.

End UpstreamFacts.

(** * Timeout and self-fetch *)

(** When a validated target's fetch does not complete within the 20
    second bound, the abort rejects it and the Workers variant answers
    502 with the JSON error [Request timeout (20s)]. *)
Lemma workers_timeout_reply
    parseURL upstream request raw currentOrigin targetURL :
  startsWith raw currentOrigin = false ->
  Workers.testHttpScheme raw = true ->
  parseURL raw = Some targetURL ->
  Spec.exceedsBound (upstream (Workers.buildProxyRequest request targetURL)) ->
  let response :=
    Workers.handleProxyRequest parseURL upstream request raw currentOrigin in
  response = Workers.errorResponse (lit "Request timeout (20s)") 502
  /\ Workers.res_status response = 502%N
  /\ Workers.res_body response
     = Text (lit "{" ++ [QUOTE] ++ lit "error" ++ [QUOTE] ++ lit ":"
             ++ [QUOTE] ++ lit "Request timeout (20s)" ++ [QUOTE] ++ lit "}").
Proof.
  intros Hloop Hscheme Hparse Hslow response.
  assert (Hr : response
               = Workers.errorResponse (lit "Request timeout (20s)") 502).
  { subst response. unfold Workers.handleProxyRequest.
    rewrite Hloop, Hscheme, Hparse. cbn [negb].
    assert (Workers.fetchWithAbort
              (upstream (Workers.buildProxyRequest request targetURL))
            = Workers.AbortError) as ->.
    { destruct (upstream _) as [ms r|ms m|]; cbn in Hslow |- *;
        try reflexivity;
        apply N.ltb_ge in Hslow; now rewrite Hslow. }
    reflexivity. }
  rewrite Hr. repeat split; reflexivity.
Qed.

Lemma workers_timeout_reply_witness :
  let response :=
    Workers.handleProxyRequest Sample.parseURL Sample.silentUpstream
      (Sample.workerRequest (Some (href Sample.base)))
      (href Sample.base) Sample.proxyOrigin in
  response = Workers.errorResponse (lit "Request timeout (20s)") 502
  /\ Workers.res_status response = 502%N
  /\ Workers.res_body response
     = Text (lit "{" ++ [QUOTE] ++ lit "error" ++ [QUOTE] ++ lit ":"
             ++ [QUOTE] ++ lit "Request timeout (20s)" ++ [QUOTE] ++ lit "}").
Proof.
  apply (workers_timeout_reply Sample.parseURL Sample.silentUpstream
           (Sample.workerRequest (Some (href Sample.base)))
           (href Sample.base) Sample.proxyOrigin Sample.base);
    reflexivity.
Defined.

(** C4 (Node variant).  The upstream request carries the 20 second
    socket timeout, but the handler registers listeners for the response
    and error events only: the timeout event finds none, so nothing is
    written to the client and the request is not destroyed. *)
Theorem node_timeout_unanswered :
  (exists options,
      Node.handler [] Sample.parseURL
        (Sample.nodeRequest (Some (href Sample.base)))
      = Node.Proxying Sample.base options false
      /\ Node.po_timeout options = 20000%N)
  /\ (forall req targetURL, Node.emit req targetURL Node.EvTimeout = None)
  /\ (forall req targetURL,
         List.map fst (Node.listeners req targetURL)
         = [lit "response"; lit "error"]).
Proof.
  split; [eexists; split; reflexivity|]. split; reflexivity.
Qed.

(** C2 (Node variant).  A target under the server's own origin is
    parsed and proxied like any other: the handler has no loop check. *)
Theorem node_self_fetch_proxied :
  startsWith (href Sample.nodeHealth)
    (Node.hostOrigin (Sample.nodeRequest (Some (href Sample.nodeHealth))))
  = true
  /\ Node.handler [] Sample.parseURL
       (Sample.nodeRequest (Some (href Sample.nodeHealth)))
     = Node.Proxying Sample.nodeHealth
         (Node.buildProxyOptions
            (Sample.nodeRequest (Some (href Sample.nodeHealth)))
            Sample.nodeHealth)
         false
  /\ Node.emit (Sample.nodeRequest (Some (href Sample.nodeHealth)))
       Sample.nodeHealth (Node.EvResponse Sample.healthReply)
     = Some {| Node.sr_statusCode := 200;
               Node.sr_headers := Node.objectOf CORS_HEADERS;
               Node.sr_body := Piped (lit "OK") |}.
Proof.
  split; [reflexivity|]. split; [reflexivity|]. vm_compute. reflexivity.
Qed.

(** * CORS headers on every reply *)

Section CorsFacts.

Lemma find_app_Some {A} (p : A -> bool) (l1 l2 : list A) x :
  List.find p l1 = Some x -> List.find p (l1 ++ l2) = Some x.
Proof.
  induction l1 as [|y l1 IH]; [discriminate|]. cbn.
  destruct (p y); [auto | exact IH].
Qed.

(** An object literal that ends with the spread of [CORS_HEADERS] holds
    the CORS values, as a [Headers] object and as a plain object. *)
Lemma cors_spread_headers pre name value :
  In (name, value) CORS_HEADERS ->
  Workers.headers_get (Workers.headers_init (pre ++ CORS_HEADERS)) name
  = Some value.
Proof.
  intros Hin. unfold Workers.headers_get, Workers.headers_init.
  rewrite foldl_set_lookup.
  apply cors_names_excluded in Hin as (_ & _ & Hlast & _).
  unfold Spec.lastValue in *. rewrite rev_app_distr.
  destruct (List.find _ (rev CORS_HEADERS)) as [kv|] eqn:F; [|discriminate].
  now rewrite (find_app_Some _ _ _ _ F).
Qed.

Lemma cors_spread_object pre name value :
  In (name, value) CORS_HEADERS ->
  Node.objectOf (pre ++ CORS_HEADERS) !! name = Some value.
Proof.
  intros Hin. unfold Node.objectOf. rewrite foldl_insert_lookup.
  apply cors_names_excluded in Hin as (_ & _ & _ & Hlast).
  unfold Spec.lastExact in *. rewrite rev_app_distr.
  destruct (List.find _ (rev CORS_HEADERS)) as [kv|] eqn:F; [|discriminate].
  now rewrite (find_app_Some _ _ _ _ F).
Qed.

(** The CORS names are none of the two names the playlist branch
    touches. *)
Lemma cors_name_not_content name value :
  In (name, value) CORS_HEADERS ->
  toLowerCase name <> toLowerCase (lit "Content-Type")
  /\ toLowerCase name <> toLowerCase (lit "Content-Length")
  /\ name <> lit "Content-Type" /\ name <> lit "content-length".
Proof.
  unfold CORS_HEADERS. cbn [In].
  intros [H|[H|[H|[H|[H|[]]]]]]; apply pair_equal_spec in H as [<- <-];
    repeat split; intros E; vm_compute in E; discriminate.
Qed.

(** The default content type of a string body leaves them in place. *)
Lemma workers_text_cors init name value :
  In (name, value) CORS_HEADERS ->
  Workers.headers_get (Workers.headers_init init) name = Some value ->
  Workers.headers_get (Workers.textHeaders init) name = Some value.
Proof.
  intros Hin Hget. unfold Workers.textHeaders. cbv zeta.
  destruct (Workers.headers_has _ _); [exact Hget|].
  destruct (cors_name_not_content name value Hin) as (Ht & _).
  unfold Workers.headers_get, Workers.headers_set in *.
  now rewrite lookup_insert_ne by congruence.
Qed.

Lemma workers_error_cors error status name value :
  In (name, value) CORS_HEADERS ->
  Workers.headers_get (Workers.res_headers (Workers.errorResponse error status))
    name = Some value.
Proof.
  intros Hin.
  exact (cors_spread_headers
           [(lit "Content-Type", lit "application/json; charset=utf-8")]
           name value Hin).
Qed.

Lemma workers_downstream_cors originHeaders name value :
  In (name, value) CORS_HEADERS ->
  Workers.headers_get (Workers.buildDownstreamHeaders originHeaders) name
  = Some value.
Proof.
  intros Hin. unfold Workers.headers_get. rewrite workers_downstream_lookup.
  apply cors_names_excluded in Hin as (_ & _ & -> & _). reflexivity.
Qed.

Lemma node_response_cors originHeaders name value :
  In (name, value) CORS_HEADERS ->
  Node.buildResponseHeaders originHeaders !! name = Some value.
Proof.
  intros Hin. rewrite node_response_lookup.
  apply cors_names_excluded in Hin as (_ & -> & _ & ->). reflexivity.
Qed.

End CorsFacts.

(** Whatever the request and whatever the origin does, the response of
    the Workers handler carries the five CORS headers with the proxy's
    values: preflight, health check, help page, every error reply, the
    relayed reply and the rewritten playlist. *)
Lemma workers_cors_on_every_response :
  forall parseURL upstream getHelpPage request,
    Forall (fun kv =>
              Workers.headers_get
                (Workers.res_headers
                   (Workers.handleRequest parseURL upstream getHelpPage
                      request)) kv.1 = Some kv.2)
      CORS_HEADERS.
Proof.
  intros parseURL upstream getHelpPage request.
  apply Forall_forall. intros [name value] Hin. cbn [fst snd].
  pose proof (cors_spread_headers [] name value Hin) as Hplain.
  pose proof (cors_spread_headers
                [(lit "Content-Type", lit "text/html; charset=utf-8")]
                name value Hin) as Hhelp.
  unfold Workers.handleRequest.
  destruct (strictEquals (Workers.req_method request) _); [exact Hplain|].
  cbv zeta.
  destruct (strictEquals (pathname _) _);
    [exact (workers_text_cors CORS_HEADERS name value Hin Hplain)|].
  destruct (Workers.req_searchParam_url request) as [target|];
    [|exact Hhelp].
  destruct (truthy target); [|exact Hhelp].
  unfold Workers.handleProxyRequest.
  destruct (startsWith target _); [now apply workers_error_cors|].
  destruct (negb _); [now apply workers_error_cors|].
  destruct (parseURL target) as [targetURL|]; [|now apply workers_error_cors].
  cbv zeta.
  destruct (Workers.fetchWithAbort _) as [reply|ename message];
    [|now apply workers_error_cors].
  destruct (_ && _); [|now apply workers_downstream_cors].
  destruct (rewriteM3u8 _ _ _); [|now apply workers_error_cors].
  cbn [Workers.res_headers].
  destruct (cors_name_not_content name value Hin) as (Ht & Hl & _).
  unfold Workers.headers_get, Workers.headers_delete, Workers.headers_set.
  rewrite lookup_delete_ne by congruence.
  rewrite lookup_insert_ne by congruence.
  now apply workers_downstream_cors.
Qed.

(** The Node handler likewise: every reply it writes, at once or when
    the upstream request emits an event, carries the five CORS
    properties.  It writes no reply of its own only for a request that
    is not a preflight and whose URL line 41 cannot parse. *)
Lemma node_cors_on_every_reply :
  forall ACCESS_PASSWORD parseURL req,
    match Node.handler ACCESS_PASSWORD parseURL req with
    | Node.Replied r =>
        Forall (fun kv => Node.sr_headers r !! kv.1 = Some kv.2) CORS_HEADERS
    | Node.Proxying targetURL _ _ =>
        forall e r,
          Node.emit req targetURL e = Some r ->
          Forall (fun kv => Node.sr_headers r !! kv.1 = Some kv.2)
            CORS_HEADERS
    | Node.Unhandled =>
        strictEquals (Node.im_method req) (lit "OPTIONS") = false
        /\ Node.im_reqUrl req = None
    end.
Proof.
  intros ACCESS_PASSWORD parseURL req.
  assert (Hplain : Forall (fun kv => Node.objectOf CORS_HEADERS !! kv.1
                                     = Some kv.2) CORS_HEADERS).
  { apply Forall_forall. intros [name value] Hin.
    exact (cors_spread_object [] name value Hin). }
  assert (Hhelp : Forall (fun kv =>
                    Node.objectOf
                      ((lit "Content-Type", lit "text/html; charset=utf-8")
                       :: CORS_HEADERS) !! kv.1 = Some kv.2) CORS_HEADERS).
  { apply Forall_forall. intros [name value] Hin.
    exact (cors_spread_object
             [(lit "Content-Type", lit "text/html; charset=utf-8")]
             name value Hin). }
  assert (Hproxy : forall target (P : Prop),
            match Node.proxy parseURL req target with
            | Node.Replied r =>
                Forall (fun kv => Node.sr_headers r !! kv.1 = Some kv.2)
                  CORS_HEADERS
            | Node.Proxying targetURL _ _ =>
                forall e r,
                  Node.emit req targetURL e = Some r ->
                  Forall (fun kv => Node.sr_headers r !! kv.1 = Some kv.2)
                    CORS_HEADERS
            | Node.Unhandled => P
            end).
  { intros target P. unfold Node.proxy.
    destruct (parseURL target) as [targetURL|]; [|exact Hplain].
    cbv zeta. destruct (strictEquals (protocol targetURL) _); [|exact Hplain].
    intros [proxyRes|message|] r He.
    - change (Node.emit req targetURL (Node.EvResponse proxyRes))
        with (Some (Node.onResponse req targetURL proxyRes)) in He.
      injection He as <-.
      unfold Node.onResponse. cbv zeta.
      destruct (_ && _).
      + destruct (rewriteM3u8 _ _ _); [|exact Hplain].
        apply Forall_forall. intros [name value] Hin.
        cbn [fst snd Node.sr_headers].
        destruct (cors_name_not_content name value Hin) as (_ & _ & Ht & Hl).
        rewrite lookup_delete_ne by congruence.
        rewrite lookup_insert_ne by congruence.
        now apply node_response_cors.
      + apply Forall_forall. intros [name value] Hin.
        now apply node_response_cors.
    - assert (Hr : exists r0,
                 Node.emit req targetURL (Node.EvError message) = Some r0
                 /\ Forall (fun kv => Node.sr_headers r0 !! kv.1 = Some kv.2)
                      CORS_HEADERS)
        by (eexists; split; [reflexivity | exact Hplain]).
      destruct Hr as (r0 & Hr0 & Hcors). rewrite Hr0 in He.
      now injection He as <-.
    - assert (Hn : Node.emit req targetURL Node.EvTimeout = None)
        by reflexivity.
      rewrite Hn in He. discriminate. }
  unfold Node.handler.
  destruct (strictEquals (Node.im_method req) _) eqn:Hm; [exact Hplain|].
  destruct (Node.im_reqUrl req) as [reqUrl|]; [|split; reflexivity].
  destruct (strictEquals (Node.ru_pathname reqUrl) _); [exact Hplain|].
  cbv zeta.
  destruct (Node.ru_searchParam_url reqUrl) as [target|]; [|exact Hhelp].
  destruct (negb (truthy target)); [exact Hhelp|].
  destruct (truthy ACCESS_PASSWORD); [|apply Hproxy].
  destruct (Node.im_headers req !! _) as [auth|]; [|exact Hplain].
  destruct (_ || _); [exact Hplain | apply Hproxy].
Qed.

(** * The reply to a proxied request *)

Section ReplyFacts.

Variable parseURL : jsstring -> option URL.
Variable upstream : Workers.ProxyRequest -> Workers.Upstream.

(** Past the validation and with the origin's reply at hand, the Workers
    handler is left with the playlist test. *)
Lemma workers_resolved request raw currentOrigin targetURL ms reply :
  startsWith raw currentOrigin = false ->
  Workers.testHttpScheme raw = true ->
  parseURL raw = Some targetURL ->
  upstream (Workers.buildProxyRequest request targetURL)
  = Workers.Replies ms reply ->
  (ms < TIMEOUT_MS)%N ->
  Workers.handleProxyRequest parseURL upstream request raw currentOrigin
  = let responseHeaders :=
      Workers.buildDownstreamHeaders (Workers.fr_headers reply) in
    if isM3u8 targetURL
         (default [] (Workers.fr_get reply (lit "content-type")))
       && Workers.fr_ok reply
    then
      match rewriteM3u8 (Workers.fr_text reply) targetURL currentOrigin with
      | Some rewrittenContent =>
          {| Workers.res_body := Text rewrittenContent;
             Workers.res_status := Workers.fr_status reply;
             Workers.res_statusText := Some (Workers.fr_statusText reply);
             Workers.res_headers :=
               Workers.headers_delete
                 (Workers.headers_set responseHeaders (lit "Content-Type")
                    M3U8_CONTENT_TYPE) (lit "Content-Length") |}
      | None =>
          Workers.errorResponse (lit "Proxy Error: " ++ URI_MALFORMED) 502
      end
    else
      {| Workers.res_body := Piped (Workers.fr_text reply);
         Workers.res_status := Workers.fr_status reply;
         Workers.res_statusText := Some (Workers.fr_statusText reply);
         Workers.res_headers := responseHeaders |}.
Proof.
  intros Hloop Hscheme Hparse Hup Hms.
  unfold Workers.handleProxyRequest.
  rewrite Hloop, Hscheme, Hparse. cbn [negb]. cbv zeta. rewrite Hup.
  apply N.ltb_lt in Hms. cbn [Workers.fetchWithAbort]. rewrite Hms.
  reflexivity.
Qed.

End ReplyFacts.

(** A playlist the origin delivers in time with an OK status comes back
    rewritten against the target and the proxy's own origin, with the
    origin's status and status text, the content type forced to
    [application/vnd.apple.mpegurl] and the content length dropped; every
    other header is the one of the relayed reply. *)
Lemma workers_playlist_reply
    parseURL upstream request raw currentOrigin targetURL ms reply :
  startsWith raw currentOrigin = false ->
  Workers.testHttpScheme raw = true ->
  parseURL raw = Some targetURL ->
  upstream (Workers.buildProxyRequest request targetURL)
  = Workers.Replies ms reply ->
  (ms < TIMEOUT_MS)%N ->
  isM3u8 targetURL (default [] (Workers.fr_get reply (lit "content-type")))
  = true ->
  Workers.fr_ok reply = true ->
  wellFormed (Workers.fr_text reply) = true ->
  wellFormed (origin targetURL) = true ->
  wellFormed (pathname targetURL) = true ->
  exists rewritten,
    rewriteM3u8 (Workers.fr_text reply) targetURL currentOrigin
    = Some rewritten
    /\ let response :=
         Workers.handleProxyRequest parseURL upstream request raw
           currentOrigin in
       Workers.res_body response = Text rewritten
       /\ Workers.res_status response = Workers.fr_status reply
       /\ Workers.res_statusText response
          = Some (Workers.fr_statusText reply)
       /\ Workers.headers_get (Workers.res_headers response)
            (lit "Content-Type") = Some M3U8_CONTENT_TYPE
       /\ Workers.headers_get (Workers.res_headers response)
            (lit "Content-Length") = None
       /\ forall name,
            toLowerCase name <> lit "content-type" ->
            toLowerCase name <> lit "content-length" ->
            Workers.headers_get (Workers.res_headers response) name
            = Workers.headers_get
                (Workers.buildDownstreamHeaders (Workers.fr_headers reply))
                name.
Proof.
  intros Hloop Hscheme Hparse Hup Hms Hm3u8 Hok Htext Horigin Hpath.
  destruct (rewriteM3u8_lines (Workers.fr_text reply) targetURL currentOrigin
              Htext Horigin Hpath) as (outs & Hout & _).
  exists (join outs [LF]). split; [exact Hout|].
  intros response. subst response.
  rewrite (workers_resolved parseURL upstream request raw currentOrigin
             targetURL ms reply Hloop Hscheme Hparse Hup Hms).
  cbv zeta. rewrite Hm3u8, Hok, Hout. cbn [andb].
  cbn [Workers.res_body Workers.res_status Workers.res_statusText
       Workers.res_headers].
  unfold Workers.headers_get, Workers.headers_delete, Workers.headers_set.
  repeat split.
  - rewrite lookup_delete_ne
      by (intros E; vm_compute in E; discriminate).
    apply lookup_insert_eq.
  - apply lookup_delete_eq.
  - intros name Htype Hlength.
    rewrite lookup_delete_ne by (intros E; apply Hlength; now rewrite <- E).
    rewrite lookup_insert_ne by (intros E; apply Htype; now rewrite <- E).
    reflexivity.
Qed.

Lemma workers_playlist_reply_witness :
  exists rewritten,
    rewriteM3u8 (Workers.fr_text Cases.playlistReply) Sample.base
      Sample.proxyOrigin = Some rewritten
    /\ let response :=
         Workers.handleProxyRequest Sample.parseURL Cases.playlistUpstream
           (Sample.workerRequest (Some (href Sample.base)))
           (href Sample.base) Sample.proxyOrigin in
       Workers.res_body response = Text rewritten
       /\ Workers.res_status response = Workers.fr_status Cases.playlistReply
       /\ Workers.res_statusText response
          = Some (Workers.fr_statusText Cases.playlistReply)
       /\ Workers.headers_get (Workers.res_headers response)
            (lit "Content-Type") = Some M3U8_CONTENT_TYPE
       /\ Workers.headers_get (Workers.res_headers response)
            (lit "Content-Length") = None
       /\ forall name,
            toLowerCase name <> lit "content-type" ->
            toLowerCase name <> lit "content-length" ->
            Workers.headers_get (Workers.res_headers response) name
            = Workers.headers_get
                (Workers.buildDownstreamHeaders
                   (Workers.fr_headers Cases.playlistReply)) name.
Proof.
  apply (workers_playlist_reply Sample.parseURL Cases.playlistUpstream
           (Sample.workerRequest (Some (href Sample.base)))
           (href Sample.base) Sample.proxyOrigin Sample.base
           120 Cases.playlistReply); reflexivity.
Defined.

(** A reply that is no playlist, or a playlist reply whose status is
    outside 200-299, is relayed as it came: payload, status and status
    text untouched, headers translated.  An error status of the origin is
    not turned into a proxy error. *)
Lemma workers_reply_relayed
    parseURL upstream request raw currentOrigin targetURL ms reply :
  startsWith raw currentOrigin = false ->
  Workers.testHttpScheme raw = true ->
  parseURL raw = Some targetURL ->
  upstream (Workers.buildProxyRequest request targetURL)
  = Workers.Replies ms reply ->
  (ms < TIMEOUT_MS)%N ->
  isM3u8 targetURL (default [] (Workers.fr_get reply (lit "content-type")))
  = false
  \/ (Workers.fr_status reply < 200)%N \/ (299 < Workers.fr_status reply)%N ->
  Workers.handleProxyRequest parseURL upstream request raw currentOrigin
  = {| Workers.res_body := Piped (Workers.fr_text reply);
       Workers.res_status := Workers.fr_status reply;
       Workers.res_statusText := Some (Workers.fr_statusText reply);
       Workers.res_headers :=
         Workers.buildDownstreamHeaders (Workers.fr_headers reply) |}.
Proof.
  intros Hloop Hscheme Hparse Hup Hms Hplain.
  rewrite (workers_resolved parseURL upstream request raw currentOrigin
             targetURL ms reply Hloop Hscheme Hparse Hup Hms).
  cbv zeta.
  assert (isM3u8 targetURL
            (default [] (Workers.fr_get reply (lit "content-type")))
          && Workers.fr_ok reply = false) as ->; [|reflexivity].
  apply andb_false_iff. destruct Hplain as [H|H]; [now left|right].
  unfold Workers.fr_ok. apply andb_false_iff.
  destruct H as [H|H]; [left; apply N.leb_gt | right; apply N.leb_gt];
    exact H.
Qed.

Lemma workers_reply_relayed_witness :
  Workers.handleProxyRequest Sample.parseURL Cases.goneUpstream
    (Sample.workerRequest (Some (href Sample.base)))
    (href Sample.base) Sample.proxyOrigin
  = {| Workers.res_body := Piped (Workers.fr_text Cases.goneReply);
       Workers.res_status := Workers.fr_status Cases.goneReply;
       Workers.res_statusText := Some (Workers.fr_statusText Cases.goneReply);
       Workers.res_headers :=
         Workers.buildDownstreamHeaders
           (Workers.fr_headers Cases.goneReply) |}.
Proof.
  apply (workers_reply_relayed Sample.parseURL Cases.goneUpstream
           (Sample.workerRequest (Some (href Sample.base)))
           (href Sample.base) Sample.proxyOrigin Sample.base
           35 Cases.goneReply); try reflexivity.
  right. right. reflexivity.
Defined.

(** In the Node variant a playlist delivered with status 200 comes back
    rewritten against the target and [http://] followed by the request's
    Host header.  The reply object gets the property [Content-Type] with
    the forced type and loses [content-length]; the origin's own
    [content-type] property, written in lower case, stays next to the
    forced one, and every other property is the one of the relayed
    reply. *)
Lemma node_playlist_reply req targetURL proxyRes :
  isM3u8 targetURL (default [] (Node.pres_get proxyRes (lit "content-type")))
  = true ->
  Node.pres_statusCode proxyRes = 200%N ->
  wellFormed (Node.pres_content proxyRes) = true ->
  wellFormed (origin targetURL) = true ->
  wellFormed (pathname targetURL) = true ->
  exists rewritten r,
    rewriteM3u8 (Node.pres_content proxyRes) targetURL (Node.hostOrigin req)
    = Some rewritten
    /\ Node.emit req targetURL (Node.EvResponse proxyRes) = Some r
    /\ Node.sr_statusCode r = 200%N
    /\ Node.sr_body r = Text rewritten
    /\ Node.sr_headers r !! lit "Content-Type" = Some M3U8_CONTENT_TYPE
    /\ Node.sr_headers r !! lit "content-length" = None
    /\ Node.sr_headers r !! lit "content-type"
       = Spec.lastExact (Node.pres_headers proxyRes) (lit "content-type")
    /\ forall key,
         key <> lit "Content-Type" -> key <> lit "content-length" ->
         Node.sr_headers r !! key
         = Node.buildResponseHeaders (Node.pres_headers proxyRes) !! key.
Proof.
  intros Hm3u8 Hstatus Htext Horigin Hpath.
  destruct (rewriteM3u8_lines (Node.pres_content proxyRes) targetURL
              (Node.hostOrigin req) Htext Horigin Hpath)
    as (outs & Hout & _).
  exists (join outs [LF]). eexists. split; [exact Hout|].
  change (Node.emit req targetURL (Node.EvResponse proxyRes))
    with (Some (Node.onResponse req targetURL proxyRes)).
  unfold Node.onResponse. cbv zeta.
  rewrite Hm3u8, Hstatus, Hout. cbn [andb N.eqb Pos.eqb].
  split; [reflexivity|]. cbn [Node.sr_statusCode Node.sr_body Node.sr_headers].
  repeat split.
  - rewrite lookup_delete_ne
      by (intros E; vm_compute in E; discriminate).
    apply lookup_insert_eq.
  - apply lookup_delete_eq.
  - rewrite lookup_delete_ne
      by (intros E; vm_compute in E; discriminate).
    rewrite lookup_insert_ne
      by (intros E; vm_compute in E; discriminate).
    now rewrite node_response_lookup.
  - intros key Htype Hlength.
    rewrite lookup_delete_ne by congruence.
    now rewrite lookup_insert_ne by congruence.
Qed.

Lemma node_playlist_reply_witness :
  exists rewritten r,
    rewriteM3u8 (Node.pres_content Cases.playlistRes) Sample.base
      (Node.hostOrigin Cases.authorisedRequest) = Some rewritten
    /\ Node.emit Cases.authorisedRequest Sample.base
         (Node.EvResponse Cases.playlistRes) = Some r
    /\ Node.sr_statusCode r = 200%N
    /\ Node.sr_body r = Text rewritten
    /\ Node.sr_headers r !! lit "Content-Type" = Some M3U8_CONTENT_TYPE
    /\ Node.sr_headers r !! lit "content-length" = None
    /\ Node.sr_headers r !! lit "content-type"
       = Spec.lastExact (Node.pres_headers Cases.playlistRes)
           (lit "content-type")
    /\ forall key,
         key <> lit "Content-Type" -> key <> lit "content-length" ->
         Node.sr_headers r !! key
         = Node.buildResponseHeaders (Node.pres_headers Cases.playlistRes)
           !! key.
Proof.
  apply (node_playlist_reply Cases.authorisedRequest Sample.base
           Cases.playlistRes); reflexivity.
Defined.

(** The Node variant rewrites on status 200 only: any other reply, a
    playlist delivered with 206 included, is piped to the client with the
    origin's status and the translated headers. *)
Lemma node_reply_relayed req targetURL proxyRes :
  isM3u8 targetURL (default [] (Node.pres_get proxyRes (lit "content-type")))
  = false
  \/ Node.pres_statusCode proxyRes <> 200%N ->
  Node.emit req targetURL (Node.EvResponse proxyRes)
  = Some {| Node.sr_statusCode := Node.pres_statusCode proxyRes;
            Node.sr_headers :=
              Node.buildResponseHeaders (Node.pres_headers proxyRes);
            Node.sr_body := Piped (Node.pres_content proxyRes) |}.
Proof.
  intros Hplain.
  change (Node.emit req targetURL (Node.EvResponse proxyRes))
    with (Some (Node.onResponse req targetURL proxyRes)).
  unfold Node.onResponse. cbv zeta.
  assert (isM3u8 targetURL
            (default [] (Node.pres_get proxyRes (lit "content-type")))
          && (Node.pres_statusCode proxyRes =? 200)%N = false) as ->;
    [|reflexivity].
  apply andb_false_iff. destruct Hplain as [H|H]; [now left|right].
  now apply N.eqb_neq.
Qed.

Lemma node_reply_relayed_witness :
  Node.emit Cases.authorisedRequest Sample.base
    (Node.EvResponse Cases.partialRes)
  = Some {| Node.sr_statusCode := Node.pres_statusCode Cases.partialRes;
            Node.sr_headers :=
              Node.buildResponseHeaders (Node.pres_headers Cases.partialRes);
            Node.sr_body := Piped (Node.pres_content Cases.partialRes) |}.
Proof.
  apply (node_reply_relayed Cases.authorisedRequest Sample.base
           Cases.partialRes).
  right. discriminate.
Defined.

(** * The loop check compares code units *)

(** The Workers handler answers with the loop error exactly when the
    target starts with the proxy's origin, code unit for code unit.  The
    scheme test that follows ignores case, so a target that spells the
    scheme of the proxy's own origin in upper case passes both. *)
Lemma workers_loop_error_iff_prefix :
  (forall parseURL upstream request raw currentOrigin,
      Workers.handleProxyRequest parseURL upstream request raw currentOrigin
      = Workers.errorResponse (lit "Loop detected: self-fetch blocked") 400
      <-> startsWith raw currentOrigin = true)
  /\ (forall host rest,
         startsWith (lit "HTTPS://" ++ host ++ rest) (lit "https://" ++ host)
         = false
         /\ Workers.testHttpScheme (lit "HTTPS://" ++ host ++ rest) = true).
Proof.
  split; [|split; reflexivity].
  intros parseURL upstream request raw currentOrigin.
  unfold Workers.handleProxyRequest.
  destruct (startsWith raw currentOrigin); [now split|].
  split; [|discriminate]. intros H. exfalso. revert H.
  destruct (negb _).
  { intros H. apply (f_equal Workers.res_body) in H.
    vm_compute in H. discriminate. }
  destruct (parseURL raw) as [targetURL|].
  2:{ intros H. apply (f_equal Workers.res_body) in H.
      vm_compute in H. discriminate. }
  cbv zeta.
  destruct (Workers.fetchWithAbort _) as [reply|ename message].
  2:{ intros H. apply (f_equal Workers.res_status) in H. discriminate. }
  destruct (_ && _).
  2:{ intros H. apply (f_equal Workers.res_body) in H. discriminate. }
  destruct (rewriteM3u8 _ _ _).
  2:{ intros H. apply (f_equal Workers.res_status) in H. discriminate. }
  intros H.
  apply (f_equal (fun r => Workers.headers_get (Workers.res_headers r)
                             (lit "Content-Type"))) in H.
  cbn [Workers.res_headers] in H.
  unfold Workers.headers_get at 1, Workers.headers_delete,
    Workers.headers_set in H.
  rewrite lookup_delete_ne in H
    by (intros E; vm_compute in E; discriminate).
  rewrite lookup_insert_eq in H. vm_compute in H. discriminate.
Qed.

(** * The password of the Node variant *)

(** Of the proxy requests whose own URL line 41 parses: with a password
    configured, such a request reaches the upstream only when its
    [authorization] header is exactly [Bearer] followed by the password,
    and every other one is answered 403 [Unauthorized]; without a
    password every one of them goes through. *)
Lemma node_password_gate ACCESS_PASSWORD parseURL req reqUrl target :
  strictEquals (Node.im_method req) (lit "OPTIONS") = false ->
  Node.im_reqUrl req = Some reqUrl ->
  strictEquals (Node.ru_pathname reqUrl) (lit "/health") = false ->
  Spec.supplied (Node.ru_searchParam_url reqUrl) = Some target ->
  Node.handler ACCESS_PASSWORD parseURL req
  = if truthy ACCESS_PASSWORD
       && negb (bool_decide
                  (Node.im_headers req !! lit "authorization"
                   = Some (lit "Bearer " ++ ACCESS_PASSWORD)))
    then Node.Replied
           {| Node.sr_statusCode := 403;
              Node.sr_headers := Node.objectOf CORS_HEADERS;
              Node.sr_body := Text (lit "Unauthorized") |}
    else Node.proxy parseURL req target.
Proof.
  intros Hm Hurl Hp Hparam. unfold Node.handler. rewrite Hm, Hurl, Hp.
  cbv zeta.
  destruct (Node.ru_searchParam_url reqUrl) as [val|]; [|discriminate].
  rewrite truthy_supplied in Hparam.
  destruct (truthy val); [|discriminate].
  apply (inj Some) in Hparam as ->. cbn [negb].
  destruct (truthy ACCESS_PASSWORD) eqn:Hpw; [|reflexivity].
  cbn [andb].
  destruct (Node.im_headers req !! lit "authorization") as [auth|].
  - destruct (strictEquals auth (lit "Bearer " ++ ACCESS_PASSWORD)) eqn:E.
    + apply strictEquals_spec in E as ->.
      rewrite bool_decide_eq_true_2 by reflexivity.
      now rewrite truthy_app by discriminate.
    + apply strictEquals_false in E.
      rewrite bool_decide_eq_false_2 by congruence.
      now rewrite orb_true_r.
  - now rewrite bool_decide_eq_false_2 by discriminate.
Qed.

Lemma node_password_gate_witness :
  Node.handler (lit "s3cret") Sample.parseURL Cases.authorisedRequest
  = if truthy (lit "s3cret")
       && negb (bool_decide
                  (Node.im_headers Cases.authorisedRequest
                   !! lit "authorization"
                   = Some (lit "Bearer " ++ lit "s3cret")))
    then Node.Replied
           {| Node.sr_statusCode := 403;
              Node.sr_headers := Node.objectOf CORS_HEADERS;
              Node.sr_body := Text (lit "Unauthorized") |}
    else Node.proxy Sample.parseURL Cases.authorisedRequest
           (href Sample.base).
Proof.
  eapply (node_password_gate (lit "s3cret") Sample.parseURL
            Cases.authorisedRequest _ (href Sample.base)); reflexivity.
Defined.

(** * The target check of the Node variant *)


(** * A request line that does not parse *)


(** * A failed fetch *)

(** When the fetch of a validated target fails within the bound (the
    rejection is no abort), the Workers variant answers 502 with the JSON
    error [Proxy Error: ] followed by the error's message, or by the
    fixed fallback text when the message is empty. *)
Lemma workers_fetch_failure_reply
    parseURL upstream request raw currentOrigin targetURL ms message :
  startsWith raw currentOrigin = false ->
  Workers.testHttpScheme raw = true ->
  parseURL raw = Some targetURL ->
  upstream (Workers.buildProxyRequest request targetURL)
  = Workers.Fails ms message ->
  (ms < TIMEOUT_MS)%N ->
  Workers.handleProxyRequest parseURL upstream request raw currentOrigin
  = Workers.errorResponse
      (lit "Proxy Error: "
       ++ (if truthy message then message
           else [20195; 29702; 35831; 27714; 22833; 36133]%N)) 502.
Proof.
  intros Hloop Hscheme Hparse Hup Hms.
  unfold Workers.handleProxyRequest.
  rewrite Hloop, Hscheme, Hparse. cbn [negb]. cbv zeta. rewrite Hup.
  apply N.ltb_lt in Hms. cbn [Workers.fetchWithAbort]. rewrite Hms.
  reflexivity.
Qed.

Lemma workers_fetch_failure_reply_witness :
  Workers.handleProxyRequest Sample.parseURL Cases.refusedUpstream
    (Sample.workerRequest (Some (href Sample.base)))
    (href Sample.base) Sample.proxyOrigin
  = Workers.errorResponse
      (lit "Proxy Error: "
       ++ (if truthy (lit "connect ECONNREFUSED")
           then lit "connect ECONNREFUSED"
           else [20195; 29702; 35831; 27714; 22833; 36133]%N)) 502.
Proof.
  apply (workers_fetch_failure_reply Sample.parseURL Cases.refusedUpstream
           (Sample.workerRequest (Some (href Sample.base)))
           (href Sample.base) Sample.proxyOrigin Sample.base 15
           (lit "connect ECONNREFUSED")); reflexivity.
Defined.

(** * The upstream request of the Node variant *)

(** The copy loop of the Node variant, property by property. *)
Lemma node_copy_lookup (inbound h : Node.JSObject) names key :
  foldl (fun headers n =>
           match inbound !! n with
           | Some val => if truthy val then <[n := val]> headers else headers
           | None => headers
           end) h names !! key
  = if bool_decide (key ∈ names)
    then match Spec.supplied (inbound !! key) with
         | Some v => Some v
         | None => h !! key
         end
    else h !! key.
Proof.
  revert h. induction names as [|n names IH]; intros h; [reflexivity|].
  cbn [foldl]. rewrite IH.
  assert (Hstep : match inbound !! n with
                  | Some val => if truthy val then <[n := val]> h else h
                  | None => h
                  end !! key
                  = if bool_decide (key = n)
                    then match Spec.supplied (inbound !! key) with
                         | Some v => Some v
                         | None => h !! key
                         end
                    else h !! key).
  { destruct (bool_decide_reflect (key = n)) as [->|Hne].
    - unfold Spec.supplied. destruct (inbound !! n) as [val|]; [|reflexivity].
      destruct (truthy val); [apply lookup_insert_eq | reflexivity].
    - destruct (inbound !! n) as [val|]; [|reflexivity].
      destruct (truthy val); [|reflexivity].
      now rewrite lookup_insert_ne by congruence. }
  rewrite Hstep.
  destruct (bool_decide_reflect (key = n)) as [->|Hne].
  - rewrite (bool_decide_eq_true_2 (n ∈ n :: names))
      by apply list_elem_of_here.
    destruct (bool_decide (n ∈ names)); [|reflexivity].
    now destruct (Spec.supplied (inbound !! n)).
  - assert (bool_decide (key ∈ n :: names) = bool_decide (key ∈ names)) as ->;
      [|reflexivity].
    apply bool_decide_ext. rewrite elem_of_cons. tauto.
Qed.

(** The options of the Node variant's upstream request: the inbound
    method, the 20 second socket timeout, and as headers the three
    spoofed ones, [range], [accept] and [accept-language] copied when the
    inbound request has them with a value, [Accept] set to [*/*], and
    nothing else: no cookie, no authorization, no host. *)
Lemma node_upstream_options :
  forall req targetURL,
    let options := Node.buildProxyOptions req targetURL in
    Node.po_method options = Node.im_method req
    /\ Node.po_timeout options = 20000%N
    /\ Node.po_headers options !! lit "Referer"
       = Some (origin targetURL ++ lit "/")
    /\ Node.po_headers options !! lit "Origin" = Some (origin targetURL)
    /\ Node.po_headers options !! lit "User-Agent" = Some USER_AGENT
    /\ Node.po_headers options !! lit "range"
       = Spec.supplied (Node.im_headers req !! lit "range")
    /\ Node.po_headers options !! lit "accept"
       = Spec.supplied (Node.im_headers req !! lit "accept")
    /\ Node.po_headers options !! lit "accept-language"
       = Spec.supplied (Node.im_headers req !! lit "accept-language")
    /\ forall key,
         ~ In key [lit "Referer"; lit "Origin"; lit "User-Agent";
                   lit "range"; lit "accept"; lit "accept-language";
                   lit "Accept"] ->
         Node.po_headers options !! key = None.
Proof.
  intros req targetURL options. subst options.
  unfold Node.buildProxyOptions. cbv zeta.
  cbn [Node.po_headers Node.po_method Node.po_timeout].
  split; [reflexivity|]. split; [reflexivity|].
  (* the default is always written: the loop never sets the property *)
  rewrite (node_copy_lookup (Node.im_headers req) _ copyHeaders (lit "Accept")).
  rewrite (bool_decide_eq_false_2 (lit "Accept" ∈ copyHeaders))
    by (intros H; apply list_elem_of_In in H; vm_compute in H;
        intuition discriminate).
  rewrite !lookup_insert_ne by (intros E; vm_compute in E; discriminate).
  rewrite lookup_empty.
  set (base := (<[lit "User-Agent" := USER_AGENT]>
                  (<[lit "Origin" := origin targetURL]>
                     (<[lit "Referer" := origin targetURL ++ lit "/"]> ∅))
                : Node.JSObject)).
  assert (Hall : forall name,
            name <> lit "Accept" ->
            (<[lit "Accept" := lit "*/*"]>
               (foldl (fun headers n =>
                         match Node.im_headers req !! n with
                         | Some val =>
                             if truthy val then <[n := val]> headers
                             else headers
                         | None => headers
                         end) base copyHeaders) : Node.JSObject) !! name
            = if bool_decide (name ∈ copyHeaders)
              then match Spec.supplied (Node.im_headers req !! name) with
                   | Some v => Some v
                   | None => base !! name
                   end
              else base !! name).
  { intros name Hname. rewrite lookup_insert_ne by congruence.
    apply node_copy_lookup. }
  repeat split.
  - rewrite Hall by (intros E; vm_compute in E; discriminate).
    reflexivity.
  - rewrite Hall by (intros E; vm_compute in E; discriminate).
    reflexivity.
  - rewrite Hall by (intros E; vm_compute in E; discriminate).
    reflexivity.
  - rewrite Hall by (intros E; vm_compute in E; discriminate).
    change (bool_decide (lit "range" ∈ copyHeaders)) with true.
    now destruct (Spec.supplied _).
  - rewrite Hall by (intros E; vm_compute in E; discriminate).
    change (bool_decide (lit "accept" ∈ copyHeaders)) with true.
    now destruct (Spec.supplied _).
  - rewrite Hall by (intros E; vm_compute in E; discriminate).
    change (bool_decide (lit "accept-language" ∈ copyHeaders)) with true.
    now destruct (Spec.supplied _).
  - intros key Hkey. cbn [In] in Hkey.
    rewrite Hall by (intros ->; apply Hkey; tauto).
    rewrite bool_decide_eq_false_2.
    + unfold base.
      rewrite !lookup_insert_ne by (intros <-; apply Hkey; tauto).
      apply lookup_empty.
    + intros H. apply list_elem_of_In in H. unfold copyHeaders in H.
      cbn [In] in H. tauto.
Qed.

(** * The playlist test *)

Lemma includes_suffix_of_needle s a b :
  includes s (a ++ b) = true -> includes s b = true.
Proof.
  rewrite !includes_spec. intros (x & y & ->).
  exists (x ++ a), y. now rewrite <- !app_assoc.
Qed.

(** The third test of the playlist detection never decides: a content
    type that includes [x-mpegurl] includes [mpegurl].  The tests compare
    code units, so the registered spelling [application/x-mpegURL] is not
    recognised by its content type and such a reply is rewritten only
    when the target's path ends in [.m3u8]. *)
Lemma isM3u8_tests :
  (forall targetURL contentType,
      isM3u8 targetURL contentType
      = endsWith (pathname targetURL) (lit ".m3u8")
        || includes contentType (lit "mpegurl"))
  /\ (forall targetURL,
         isM3u8 targetURL (lit "application/x-mpegURL")
         = endsWith (pathname targetURL) (lit ".m3u8")).
Proof.
  split.
  - intros targetURL contentType. unfold isM3u8.
    destruct (includes contentType (lit "x-mpegurl")) eqn:E.
    + apply (includes_suffix_of_needle contentType (lit "x-")
               (lit "mpegurl")) in E.
      rewrite E. now rewrite !orb_true_r.
    + now rewrite orb_false_r.
  - intros targetURL. unfold isM3u8.
    destruct (endsWith _ _); reflexivity.
Qed.

(** * Media lines and white space *)

Section TrimFacts.

Implicit Types s w : jsstring.

Lemma trimStart_app_keeps s t :
  trimStart s <> [] -> trimStart (s ++ t) = trimStart s ++ t.
Proof.
  induction s as [|c s IH]; [contradiction|]. intros Hne. simpl in *.
  destruct (isWhiteSpace c); [exact (IH Hne) | reflexivity].
Qed.

Lemma trimStart_all_whitespace s :
  trimStart s = [] -> Forall (fun c => isWhiteSpace c = true) s.
Proof.
  induction s as [|c s IH]; [constructor|]. simpl.
  destruct (isWhiteSpace c) eqn:E; [|discriminate].
  intros H. constructor; auto.
Qed.

Lemma trimStart_of_whitespace w :
  Forall (fun c => isWhiteSpace c = true) w -> trimStart w = [].
Proof.
  intros H. rewrite <- (app_nil_r w). now rewrite trimStart_whitespace.
Qed.

Lemma Forall_rev_whitespace w :
  Forall (fun c => isWhiteSpace c = true) w ->
  Forall (fun c => isWhiteSpace c = true) (rev w).
Proof.
  rewrite !Forall_forall. intros H c Hc. apply H. now apply in_rev.
Qed.

Lemma trimEnd_whitespace s w :
  Forall (fun c => isWhiteSpace c = true) w -> trimEnd (s ++ w) = trimEnd s.
Proof.
  intros Hw. unfold trimEnd. rewrite rev_app_distr.
  now rewrite trimStart_whitespace by now apply Forall_rev_whitespace.
Qed.

(** [trim] sees through white space added on either side. *)
Lemma trim_whitespace w1 s w2 :
  Forall (fun c => isWhiteSpace c = true) w1 ->
  Forall (fun c => isWhiteSpace c = true) w2 ->
  trim (w1 ++ s ++ w2) = trim s.
Proof.
  intros H1 H2. unfold trim. rewrite trimStart_whitespace by exact H1.
  destruct (trimStart s) as [|c t] eqn:E.
  - apply trimStart_all_whitespace in E.
    rewrite trimStart_of_whitespace; [reflexivity|].
    apply Forall_app. now split.
  - rewrite trimStart_app_keeps by (rewrite E; discriminate).
    rewrite E. now apply trimEnd_whitespace.
Qed.

End TrimFacts.

(** White space around a media reference (the carriage return of a CRLF
    playlist, indentation) does not reach the rewritten line: the line is
    rewritten as the reference alone would be. *)
Lemma rewriteLine_media_ignores_whitespace
    baseOrigin basePath proxyOrigin w1 line w2 :
  Forall (fun c => isWhiteSpace c = true) w1 ->
  Forall (fun c => isWhiteSpace c = true) w2 ->
  isDirective (trim line) = false ->
  rewriteLine baseOrigin basePath proxyOrigin (w1 ++ line ++ w2)
  = rewriteLine baseOrigin basePath proxyOrigin line.
Proof.
  intros H1 H2 Hmedia.
  rewrite !rewriteLine_media; rewrite ?trim_whitespace; auto.
Qed.

Lemma rewriteLine_media_ignores_whitespace_witness :
  rewriteLine (origin Sample.base) (basePathOf Sample.base) Sample.proxyOrigin
    (lit "  " ++ lit "seg001.ts" ++ [13%N])
  = rewriteLine (origin Sample.base) (basePathOf Sample.base)
      Sample.proxyOrigin (lit "seg001.ts").
Proof.
  apply (rewriteLine_media_ignores_whitespace
           (origin Sample.base) (basePathOf Sample.base) Sample.proxyOrigin
           (lit "  ") (lit "seg001.ts") [13%N]);
    [repeat constructor | repeat constructor | reflexivity].
Defined.

(** * The rewritten reference is one query parameter *)

(** In a rewritten media line everything after [/?url=] is made of
    letters, digits, the marks [-_.!~*'()] and percent signs: no
    ampersand, equals sign, hash, question mark, slash, colon, plus, space
    or quote, so the target reaches the proxy as the single value of the
    [url] parameter. *)
Lemma rewriteLine_media_query baseOrigin basePath proxyOrigin line out :
  isDirective (trim line) = false ->
  rewriteLine baseOrigin basePath proxyOrigin line = Some out ->
  exists encoded,
    out = proxyOrigin ++ lit "/?url=" ++ encoded
    /\ encodeURIComponent (resolveUrl (trim line) baseOrigin basePath)
       = Some encoded
    /\ Forall (fun c => isUnreserved c = true \/ c = PERCENT) encoded
    /\ Forall (fun delimiter => ~ In delimiter encoded)
         (lit "&=#?/:+ " ++ [QUOTE; LF]).
Proof.
  intros Hmedia Hout. rewrite rewriteLine_media in Hout by exact Hmedia.
  unfold proxied in Hout.
  destruct (encodeURIComponent _) as [encoded|] eqn:He; [|discriminate].
  cbn in Hout. apply (inj Some) in Hout as <-.
  exists encoded. split; [reflexivity|]. split; [reflexivity|].
  pose proof (encodeURIComponent_safe _ _ He) as Hsafe.
  split; [exact Hsafe|].
  apply Forall_forall. intros d Hd. apply (not_In_safe d encoded);
    [| |exact Hsafe];
    vm_compute in Hd; decompose [or] Hd; subst; try contradiction;
    first [reflexivity | discriminate].
Qed.

Lemma rewriteLine_media_query_witness :
  exists encoded,
    Sample.proxyOrigin
    ++ lit "/?url=https%3A%2F%2Fcdn.example.com%2Fvideos%2Fabc%2Fseg001.ts"
    = Sample.proxyOrigin ++ lit "/?url=" ++ encoded
    /\ encodeURIComponent
         (resolveUrl (trim (lit "seg001.ts")) (origin Sample.base)
            (basePathOf Sample.base)) = Some encoded
    /\ Forall (fun c => isUnreserved c = true \/ c = PERCENT) encoded
    /\ Forall (fun delimiter => ~ In delimiter encoded)
         (lit "&=#?/:+ " ++ [QUOTE; LF]).
Proof.
  apply (rewriteLine_media_query (origin Sample.base) (basePathOf Sample.base)
           Sample.proxyOrigin (lit "seg001.ts")); reflexivity.
Defined.

(** * Attributes the pattern does not match *)

Section UnmatchedAttribute.

Implicit Types s pre post : jsstring.

Lemma replaceURI_no_match replacer s :
  (forall a b, s = a ++ b -> matchURI b = None) ->
  replaceURI replacer s = Some s.
Proof.
  induction s as [|c s IH]; intros H.
  - now rewrite replaceURI_equation_1.
  - rewrite replaceURI_cons, (H [] (c :: s) eq_refl).
    rewrite IH; [reflexivity|].
    intros a b ->. now apply (H (c :: a)).
Qed.

Lemma includes_app_r s t p : includes t p = true -> includes (s ++ t) p = true.
Proof.
  rewrite !includes_spec. intros (a & b & ->).
  exists (s ++ a), b. now rewrite <- app_assoc.
Qed.

Lemma includes_app_l s t p : includes s p = true -> includes (s ++ t) p = true.
Proof.
  rewrite !includes_spec. intros (a & b & ->).
  exists a, (b ++ t). now rewrite <- !app_assoc.
Qed.

(** With no other occurrence before or after, the attribute name stands
    at one place only. *)
Lemma attr_position_unique pre post a x :
  includes pre URI_ATTR = false -> includes post URI_ATTR = false ->
  a ++ URI_ATTR ++ x = pre ++ URI_ATTR ++ post -> a = pre /\ x = post.
Proof.
  intros Hpre Hpost Heq.
  apply app_eq_app in Heq as [l [[-> Heq]|[-> Heq]]].
  - (* the occurrence starts in the name or after it *)
    destruct l as [|l0 l].
    + rewrite app_nil_r. rewrite app_nil_l in Heq. split; [reflexivity|].
      symmetry. exact (app_inv_head _ _ _ Heq).
    + exfalso. change URI_ATTR with [85; 82; 73; 61; 34]%N in Heq.
      destruct l as [|l1 [|l2 [|l3 [|l4 l]]]]; try discriminate.
      injection Heq as _ _ _ _ _ Heq.
      assert (includes post URI_ATTR = true) as Ht; [|congruence].
      apply includes_spec. exists l, x. exact Heq.
  - (* the occurrence starts before the name *)
    destruct l as [|l0 l].
    + rewrite app_nil_r. rewrite app_nil_l in Heq. split; [reflexivity|].
      exact (app_inv_head _ _ _ Heq).
    + exfalso.
      assert (Hl : includes (l0 :: l) URI_ATTR = false).
      { destruct (includes (l0 :: l) URI_ATTR) eqn:E; [|reflexivity].
        apply (includes_app_r a) in E. congruence. }
      pose proof (no_straddle (l0 :: l) post ltac:(discriminate) Hl) as Hs.
      rewrite <- Heq, startsWith_app in Hs. discriminate.
Qed.

End UnmatchedAttribute.

(** The pattern needs a value of at least one code unit and a closing
    quote.  A directive whose only key-URI attribute has an empty value,
    or no closing quote, comes out unchanged. *)
Lemma rewriteLine_unmatched_attribute
    baseOrigin basePath proxyOrigin pre post :
  isDirective (trim (pre ++ URI_ATTR ++ post)) = true ->
  includes pre URI_ATTR = false ->
  includes post URI_ATTR = false ->
  (exists rest, post = QUOTE :: rest) \/ ~ In QUOTE post ->
  rewriteLine baseOrigin basePath proxyOrigin (pre ++ URI_ATTR ++ post)
  = Some (pre ++ URI_ATTR ++ post).
Proof.
  intros Hdir Hpre Hpost Hvalue.
  rewrite rewriteLine_directive by exact Hdir.
  apply replaceURI_no_match. intros a b Heq.
  destruct (matchURI b) as [[uri rest]|] eqn:Hm; [exfalso|reflexivity].
  apply matchURI_spec in Hm as (-> & Hne & Hq).
  symmetry in Heq.
  apply attr_position_unique in Heq as [_ Heq]; [|assumption..].
  destruct Hvalue as [[r ->]|Hnone].
  - destruct uri as [|u uri]; [contradiction|].
    injection Heq as -> _. apply Hq. now left.
  - apply Hnone. rewrite <- Heq. apply in_or_app. right. now left.
Qed.

Lemma rewriteLine_unmatched_attribute_witness :
  rewriteLine (origin Sample.base) (basePathOf Sample.base) Sample.proxyOrigin
    (lit "#EXT-X-KEY:METHOD=NONE," ++ URI_ATTR ++ [QUOTE])
  = Some (lit "#EXT-X-KEY:METHOD=NONE," ++ URI_ATTR ++ [QUOTE]).
Proof.
  apply (rewriteLine_unmatched_attribute
           (origin Sample.base) (basePathOf Sample.base) Sample.proxyOrigin
           (lit "#EXT-X-KEY:METHOD=NONE,") [QUOTE]);
    [reflexivity | reflexivity | reflexivity | left; exists []; reflexivity].
Defined.

(** * The rewriter and the validation agree *)

Section SchemeFacts.

Lemma startsWith_app_l s t p :
  startsWith s p = true -> startsWith (s ++ t) p = true.
Proof.
  rewrite !startsWith_spec. intros [r ->]. exists (r ++ t).
  now rewrite <- app_assoc.
Qed.

Lemma toLowerCase_app s t :
  toLowerCase (s ++ t) = toLowerCase s ++ toLowerCase t.
Proof. apply map_app. Qed.

Lemma testHttpScheme_app s t :
  Workers.testHttpScheme s = true -> Workers.testHttpScheme (s ++ t) = true.
Proof.
  unfold Workers.testHttpScheme. rewrite toLowerCase_app, !orb_true_iff.
  intros [H|H]; [left|right]; now apply startsWith_app_l.
Qed.

End SchemeFacts.

(** Whatever the reference, the absolute URL the rewriter builds against
    an [http] or [https] base origin passes the scheme test of the Workers
    validation: a rewritten line is never refused as [Invalid target
    URL]. *)
Lemma resolved_reference_passes_scheme_test url baseOrigin basePath :
  Workers.testHttpScheme baseOrigin = true ->
  Workers.testHttpScheme (resolveUrl url baseOrigin basePath) = true.
Proof.
  intros Hbase. unfold resolveUrl.
  destruct (startsWith url (lit "http://")) eqn:E1.
  { apply startsWith_spec in E1 as [r ->]. reflexivity. }
  destruct (startsWith url (lit "https://")) eqn:E2.
  { apply startsWith_spec in E2 as [r ->]. reflexivity. }
  cbn [orb]. destruct (startsWith url (lit "//")) eqn:E3.
  { apply startsWith_spec in E3 as [r ->]. reflexivity. }
  destruct (startsWith url (lit "/")); now apply testHttpScheme_app.
Qed.

Lemma resolved_reference_passes_scheme_test_witness :
  Workers.testHttpScheme
    (resolveUrl (lit "../key.bin") (origin Sample.base)
       (basePathOf Sample.base)) = true.
Proof.
  apply (resolved_reference_passes_scheme_test (lit "../key.bin")
           (origin Sample.base) (basePathOf Sample.base)).
  reflexivity.
Defined.

(** * What reaches the network *)

(** The Workers handler consults the network for one request only: the
    one built for the target, and only after the target passed the loop
    check, the scheme test and the URL parser.  Two networks that agree on
    that request give the same response. *)
Lemma workers_fetches_validated_target_only
    parseURL upstream1 upstream2 request raw currentOrigin :
  (forall targetURL,
      startsWith raw currentOrigin = false ->
      Workers.testHttpScheme raw = true ->
      parseURL raw = Some targetURL ->
      upstream1 (Workers.buildProxyRequest request targetURL)
      = upstream2 (Workers.buildProxyRequest request targetURL)) ->
  Workers.handleProxyRequest parseURL upstream1 request raw currentOrigin
  = Workers.handleProxyRequest parseURL upstream2 request raw currentOrigin.
Proof.
  intros Hagree. unfold Workers.handleProxyRequest.
  destruct (startsWith raw currentOrigin); [reflexivity|].
  destruct (Workers.testHttpScheme raw); [|reflexivity]. cbn [negb].
  destruct (parseURL raw) as [targetURL|]; [|reflexivity].
  cbv zeta. now rewrite (Hagree targetURL).
Qed.

Lemma workers_fetches_validated_target_only_witness :
  Workers.handleProxyRequest Sample.parseURL Sample.silentUpstream
    (Sample.workerRequest (Some (href Sample.ftpFile)))
    (href Sample.ftpFile) Sample.proxyOrigin
  = Workers.handleProxyRequest Sample.parseURL Cases.playlistUpstream
      (Sample.workerRequest (Some (href Sample.ftpFile)))
      (href Sample.ftpFile) Sample.proxyOrigin.
Proof.
  apply (workers_fetches_validated_target_only Sample.parseURL
           Sample.silentUpstream Cases.playlistUpstream
           (Sample.workerRequest (Some (href Sample.ftpFile)))
           (href Sample.ftpFile) Sample.proxyOrigin).
  intros targetURL _ Hscheme. discriminate Hscheme.
Defined.

(** * The TMDB proxy *)

Section TmdbFacts.

Lemma replaceString_unfold s p r :
  replaceString s p r
  = if startsWith s p then r ++ skipn (length p) s
    else match s with
         | [] => []
         | c :: s' => c :: replaceString s' p r
         end.
Proof. destruct s; reflexivity. Qed.

Lemma replaceString_prefix p r s :
  replaceString (p ++ s) p r = r ++ s.
Proof.
  rewrite replaceString_unfold, startsWith_app. now rewrite drop_app_length.
Qed.

Lemma tmdb_route_api rest search :
  Tmdb.route (lit "/api/" ++ rest) search
  = inr (Tmdb.API_ORIGIN ++ lit "/" ++ rest ++ search).
Proof.
  unfold Tmdb.route. rewrite startsWith_app.
  change (lit "/api/" ++ rest) with (lit "/api" ++ lit "/" ++ rest).
  rewrite replaceString_prefix. now rewrite <- !app_assoc.
Qed.

Lemma tmdb_route_image rest search :
  Tmdb.route (lit "/t/" ++ rest) search
  = inr (Tmdb.IMAGE_ORIGIN ++ lit "/t/" ++ rest ++ search).
Proof. unfold Tmdb.route. now rewrite <- !app_assoc. Qed.

End TmdbFacts.

(** The TMDB proxy forwards to two places only.  A path under [/api/]
    goes to the API host with its leading [/api] removed (a later [/api]
    in the path stays), a path under [/t/] goes to the image host as it
    is, and the query string follows unchanged.  Every other path is
    answered without a target. *)
Lemma tmdb_route_targets path search targetUrl :
  Tmdb.route path search = inr targetUrl ->
  (exists rest,
      path = lit "/api/" ++ rest
      /\ targetUrl = Tmdb.API_ORIGIN ++ lit "/" ++ rest ++ search)
  \/ (exists rest,
         path = lit "/t/" ++ rest
         /\ targetUrl = Tmdb.IMAGE_ORIGIN ++ lit "/t/" ++ rest ++ search).
Proof.
  intros H.
  destruct (startsWith path (lit "/api/")) eqn:Eapi.
  - apply startsWith_spec in Eapi as [rest ->].
    rewrite tmdb_route_api in H. left. exists rest.
    split; [reflexivity | congruence].
  - destruct (startsWith path (lit "/t/")) eqn:Eimg.
    + apply startsWith_spec in Eimg as [rest ->].
      rewrite tmdb_route_image in H. right. exists rest.
      split; [reflexivity | congruence].
    + unfold Tmdb.route in H. rewrite Eapi, Eimg in H.
      destruct (_ || _); discriminate.
Qed.

Lemma tmdb_route_targets_witness :
  (exists rest,
      lit "/api/3/api/configuration" = lit "/api/" ++ rest
      /\ Tmdb.API_ORIGIN ++ lit "/3/api/configuration" ++ lit "?api_key=KEY"
         = Tmdb.API_ORIGIN ++ lit "/" ++ rest ++ lit "?api_key=KEY")
  \/ (exists rest,
         lit "/api/3/api/configuration" = lit "/t/" ++ rest
         /\ Tmdb.API_ORIGIN ++ lit "/3/api/configuration" ++ lit "?api_key=KEY"
            = Tmdb.IMAGE_ORIGIN ++ lit "/t/" ++ rest ++ lit "?api_key=KEY").
Proof.
  apply (tmdb_route_targets (lit "/api/3/api/configuration")
           (lit "?api_key=KEY")).
  reflexivity.
Defined.

(** What the handler returns depends on the network only through the
    two TMDB hosts: two networks that agree on every URL under
    [https://api.themoviedb.org/] and [https://image.tmdb.org/t/] give the
    same reply and leave the same cache, whatever the request. *)
Lemma tmdb_fetch_reaches_tmdb_only upstream1 upstream2 request cache :
  (forall rq,
      startsWith (Tmdb.ur_url rq) (Tmdb.API_ORIGIN ++ lit "/") = true
      \/ startsWith (Tmdb.ur_url rq) (Tmdb.IMAGE_ORIGIN ++ lit "/t/") = true ->
      upstream1 rq = upstream2 rq) ->
  Tmdb.fetch upstream1 request cache = Tmdb.fetch upstream2 request cache.
Proof.
  intros Hagree. unfold Tmdb.fetch.
  destruct (strictEquals (Tmdb.req_method request) _); [reflexivity|].
  destruct (Tmdb.route _ _) as [response|targetUrl] eqn:Hroute;
    [reflexivity|].
  unfold Tmdb.forward. cbv zeta.
  destruct (Tmdb.cache_match cache _); [reflexivity|].
  rewrite Hagree; [reflexivity|]. cbn [Tmdb.ur_url Tmdb.upstreamRequest].
  apply tmdb_route_targets in Hroute as [(rest & _ & ->)|(rest & _ & ->)];
    [left|right].
  - rewrite (app_assoc Tmdb.API_ORIGIN). apply startsWith_app.
  - rewrite (app_assoc Tmdb.IMAGE_ORIGIN). apply startsWith_app.
Qed.

Lemma tmdb_fetch_reaches_tmdb_only_witness :
  Tmdb.fetch TmdbCases.tmdbUp TmdbCases.popular ∅
  = Tmdb.fetch TmdbCases.tmdbOnly TmdbCases.popular ∅.
Proof.
  apply (tmdb_fetch_reaches_tmdb_only TmdbCases.tmdbUp TmdbCases.tmdbOnly
           TmdbCases.popular ∅).
  intros rq H. unfold TmdbCases.tmdbOnly.
  destruct H as [H|H]; rewrite H; [reflexivity | now rewrite orb_true_r].
Defined.

Section TmdbCacheFacts.

Variable upstream : Tmdb.UpstreamRequest -> Tmdb.FetchResult.


Lemma tmdb_cors_set (h : Workers.Headers) name value :
  In (name, value) Tmdb.corsHeaders ->
  Workers.headers_get
    (foldl (fun h kv => Workers.headers_set h kv.1 kv.2) h Tmdb.corsHeaders)
    name = Some value
  /\ toLowerCase name <> toLowerCase (lit "Cache-Control").
Proof.
  unfold Workers.headers_get. rewrite foldl_set_lookup.
  unfold Tmdb.corsHeaders. cbn [In].
  intros [H|[H|[H|[]]]]; apply pair_equal_spec in H as [<- <-];
    (split; [reflexivity | intros E; vm_compute in E; discriminate]).
Qed.

Lemma tmdb_cors_init pre name value :
  In (name, value) Tmdb.corsHeaders ->
  Workers.headers_get (Workers.headers_init (pre ++ Tmdb.corsHeaders)) name
  = Some value.
Proof.
  intros Hin. unfold Workers.headers_init.
  rewrite foldl_app. now apply tmdb_cors_set.
Qed.

Lemma tmdb_cors_text name value :
  In (name, value) Tmdb.corsHeaders ->
  Workers.headers_get (Workers.textHeaders Tmdb.corsHeaders) name
  = Some value.
Proof.
  intros Hin. pose proof (tmdb_cors_init [] name value Hin) as Hplain.
  unfold Workers.textHeaders. cbv zeta.
  destruct (Workers.headers_has _ _); [exact Hplain|].
  unfold Workers.headers_get, Workers.headers_set in *.
  rewrite lookup_insert_ne; [exact Hplain|].
  revert Hin. clear Hplain. unfold Tmdb.corsHeaders. cbn [In].
  intros [H|[H|[H|[]]]]; apply pair_equal_spec in H as [<- <-];
    intros E; vm_compute in E; discriminate.
Qed.

End TmdbCacheFacts.

(** Every reply of the TMDB proxy carries its three CORS headers:
    preflight, usage text, 404, the 500 of a failed fetch, and every
    reply relayed from the origin or from the cache. *)
Lemma tmdb_cors_on_every_response :
  forall upstream request cache,
    Forall (fun kv =>
              Workers.headers_get
                (Workers.res_headers (Tmdb.fetch upstream request cache).1)
                kv.1 = Some kv.2)
      Tmdb.corsHeaders.
Proof.
  intros upstream request cache.
  apply Forall_forall. intros [name value] Hin. cbn [fst snd].
  pose proof (tmdb_cors_init [] name value Hin) as Hplain.
  pose proof (tmdb_cors_init [(lit "Content-Type", lit "application/json")]
                name value Hin) as Hjson.
  unfold Tmdb.fetch.
  destruct (strictEquals (Tmdb.req_method request) _); [exact Hplain|].
  unfold Tmdb.route.
  destruct (startsWith (Tmdb.req_pathname request) (lit "/api/")).
  2: destruct (startsWith (Tmdb.req_pathname request) (lit "/t/")).
  3: destruct (_ || _); [exact Hjson | now apply tmdb_cors_text].
  all: unfold Tmdb.forward; cbv zeta;
    assert (Hrelay : forall response : Workers.Response,
              Workers.headers_get
                (if Tmdb.isImageRequest request
                 then Workers.headers_set
                        (foldl (fun h kv => Workers.headers_set h kv.1 kv.2)
                           (Workers.res_headers response) Tmdb.corsHeaders)
                        (lit "Cache-Control") Tmdb.IMAGE_CACHE_CONTROL
                 else foldl (fun h kv => Workers.headers_set h kv.1 kv.2)
                        (Workers.res_headers response) Tmdb.corsHeaders)
                name = Some value)
      by (intros response;
          destruct (tmdb_cors_set (Workers.res_headers response) name value
                      Hin) as [Hset Hne];
          destruct (Tmdb.isImageRequest request); [|exact Hset];
          unfold Workers.headers_get, Workers.headers_set;
          rewrite lookup_insert_ne by congruence; exact Hset);
    destruct (Tmdb.cache_match cache _) as [cached|]; [apply Hrelay|];
    destruct (upstream _) as [response|message]; [|exact Hjson];
    destruct (Tmdb.ok response); apply Hrelay.
Qed.

(** The cache only ever gains OK replies of the two TMDB hosts, stamped
    with one of the two lifetimes: if every entry is such a reply before
    a request, every entry is one after it. *)
Lemma tmdb_cache_invariant upstream request cache :
  map_Forall
    (fun key response =>
       (startsWith key.1 (Tmdb.API_ORIGIN ++ lit "/") = true
        \/ startsWith key.1 (Tmdb.IMAGE_ORIGIN ++ lit "/t/") = true)
       /\ Tmdb.ok response = true
       /\ (Workers.headers_get (Workers.res_headers response)
             (lit "Cache-Control") = Some Tmdb.IMAGE_CACHE_CONTROL
           \/ Workers.headers_get (Workers.res_headers response)
                (lit "Cache-Control") = Some Tmdb.API_CACHE_CONTROL))
    cache ->
  map_Forall
    (fun key response =>
       (startsWith key.1 (Tmdb.API_ORIGIN ++ lit "/") = true
        \/ startsWith key.1 (Tmdb.IMAGE_ORIGIN ++ lit "/t/") = true)
       /\ Tmdb.ok response = true
       /\ (Workers.headers_get (Workers.res_headers response)
             (lit "Cache-Control") = Some Tmdb.IMAGE_CACHE_CONTROL
           \/ Workers.headers_get (Workers.res_headers response)
                (lit "Cache-Control") = Some Tmdb.API_CACHE_CONTROL))
    (Tmdb.fetch upstream request cache).2.
Proof.
  intros Hinv. unfold Tmdb.fetch.
  destruct (strictEquals (Tmdb.req_method request) _); [exact Hinv|].
  destruct (Tmdb.route _ _) as [direct|targetUrl] eqn:Hroute; [exact Hinv|].
  unfold Tmdb.forward. cbv zeta.
  destruct (Tmdb.cache_match cache _) as [cached|]; [exact Hinv|].
  destruct (upstream _) as [response|message]; [|exact Hinv].
  destruct (Tmdb.ok response) eqn:Hok; [|exact Hinv].
  cbn [snd]. unfold Tmdb.cache_put. apply map_Forall_insert_2; [|exact Hinv].
  cbn [fst Tmdb.key_url Tmdb.cacheKey]. split.
  { apply tmdb_route_targets in Hroute as [(rest & _ & ->)|(rest & _ & ->)];
      [left|right].
    - rewrite (app_assoc Tmdb.API_ORIGIN). apply startsWith_app.
    - rewrite (app_assoc Tmdb.IMAGE_ORIGIN). apply startsWith_app. }
  split; [exact Hok|].
  unfold Tmdb.cachedResponse. cbv zeta. cbn [Workers.res_headers].
  unfold Workers.headers_get, Workers.headers_set.
  rewrite lookup_insert_eq.
  destruct (Tmdb.isImageRequest request); [now left | now right].
Qed.

Lemma tmdb_cache_invariant_witness :
  map_Forall
    (fun key response =>
       (startsWith key.1 (Tmdb.API_ORIGIN ++ lit "/") = true
        \/ startsWith key.1 (Tmdb.IMAGE_ORIGIN ++ lit "/t/") = true)
       /\ Tmdb.ok response = true
       /\ (Workers.headers_get (Workers.res_headers response)
             (lit "Cache-Control") = Some Tmdb.IMAGE_CACHE_CONTROL
           \/ Workers.headers_get (Workers.res_headers response)
                (lit "Cache-Control") = Some Tmdb.API_CACHE_CONTROL))
    (Tmdb.fetch TmdbCases.tmdbUp TmdbCases.popular ∅).2.
Proof.
  apply (tmdb_cache_invariant TmdbCases.tmdbUp TmdbCases.popular ∅).
  apply map_Forall_empty.
Defined.



(** Of the inbound request the TMDB proxy uses the method, the path,
    the query and the [Accept] header, and nothing else: requests that
    agree on these get the same reply and leave the same cache, so no
    cookie or token of the client reaches the origin. *)
Lemma tmdb_forwards_accept_only upstream request request' cache :
  Tmdb.req_method request' = Tmdb.req_method request ->
  Tmdb.req_pathname request' = Tmdb.req_pathname request ->
  Tmdb.req_search request' = Tmdb.req_search request ->
  Workers.headers_get (Tmdb.req_headers request') (lit "Accept")
  = Workers.headers_get (Tmdb.req_headers request) (lit "Accept") ->
  Tmdb.fetch upstream request' cache = Tmdb.fetch upstream request cache.
Proof.
  intros Hmethod Hpath Hsearch Haccept.
  unfold Tmdb.fetch, Tmdb.forward, Tmdb.cacheKey, Tmdb.cachedResponse,
    Tmdb.upstreamRequest, Tmdb.isImageRequest.
  now rewrite Hmethod, Hpath, Hsearch, Haccept.
Qed.

Lemma tmdb_forwards_accept_only_witness :
  Tmdb.fetch TmdbCases.tmdbUp TmdbCases.popularWithCookie ∅
  = Tmdb.fetch TmdbCases.tmdbUp TmdbCases.popular ∅.
Proof.
  apply (tmdb_forwards_accept_only TmdbCases.tmdbUp TmdbCases.popular
           TmdbCases.popularWithCookie ∅); reflexivity.
Defined.

(** * The service worker *)

Section ServiceWorkerFacts.

Context {R : Type}.

Implicit Types cache : @ServiceWorker.Cache R.

Lemma cache_delete_absent cache request :
  ~ In request (ServiceWorker.cache_keys cache) ->
  ServiceWorker.cache_delete cache request = cache.
Proof.
  unfold ServiceWorker.cache_delete, ServiceWorker.cache_keys.
  induction cache as [|[k r] cache IH]; [reflexivity|].
  cbn [List.filter List.map fst In]. intros Hnot.
  destruct (strictEquals k request) eqn:E.
  - apply strictEquals_spec in E. exfalso. apply Hnot. now left.
  - cbn [negb]. rewrite IH; [reflexivity|]. intros H. apply Hnot. now right.
Qed.

(** Deleting the oldest key of a cache with distinct keys removes its
    first pair and nothing else. *)
Lemma cache_delete_head k (r : R) cache :
  ~ In k (ServiceWorker.cache_keys cache) ->
  ServiceWorker.cache_delete ((k, r) :: cache) k = cache.
Proof.
  intros Hnot. unfold ServiceWorker.cache_delete. cbn [List.filter fst].
  rewrite strictEquals_refl. cbn [negb].
  now apply cache_delete_absent.
Qed.

Lemma trim_loop cache d :
  NoDup (ServiceWorker.cache_keys cache) ->
  (d <= length cache)%nat ->
  foldl (fun c i =>
           match ServiceWorker.cache_keys cache !! i with
           | Some request => ServiceWorker.cache_delete c request
           | None => c
           end) cache (seq 0 d)
  = skipn d cache.
Proof.
  intros Hnodup. induction d as [|d IH]; intros Hd; [reflexivity|].
  rewrite seq_S, foldl_snoc, IH by lia. cbn [Nat.add].
  destruct (lookup_lt_is_Some_2 cache d ltac:(lia)) as [[k r] Hkr].
  unfold ServiceWorker.cache_keys at 1.
  rewrite list_lookup_fmap, Hkr. cbn [fmap option_fmap option_map fst].
  rewrite (drop_S _ _ _ Hkr). apply cache_delete_head.
  (* the key does not come back later in the list *)
  rewrite <- (take_drop d cache) in Hnodup.
  rewrite (drop_S _ _ _ Hkr) in Hnodup.
  unfold ServiceWorker.cache_keys in Hnodup |- *.
  rewrite map_app in Hnodup. apply list.NoDup_app in Hnodup as (_ & _ & Hnodup).
  cbn [List.map fst] in Hnodup. apply list.NoDup_cons in Hnodup as [Hnot _].
  intros Hin. apply Hnot. now apply list_elem_of_In.
Qed.

End ServiceWorkerFacts.

(** [trimImageCache] on a cache with one pair per request: the pairs
    beyond the bound of 500 are removed from the old end and the others
    stay, in their order; a cache within the bound is left alone.  The
    cache it leaves never holds more than 500 pairs. *)
Lemma trimImageCache_keeps_newest {R : Type} (cache : @ServiceWorker.Cache R) :
  NoDup (ServiceWorker.cache_keys cache) ->
  ServiceWorker.trimImageCache cache
  = skipn (length cache - ServiceWorker.MAX_IMAGE_CACHE) cache
  /\ length (ServiceWorker.trimImageCache cache)
     = Nat.min (length cache) ServiceWorker.MAX_IMAGE_CACHE.
Proof.
  intros Hnodup.
  assert (Htrim : ServiceWorker.trimImageCache cache
                  = skipn (length cache - ServiceWorker.MAX_IMAGE_CACHE) cache).
  { unfold ServiceWorker.trimImageCache. cbv zeta.
    assert (Hlen : length (ServiceWorker.cache_keys cache) = length cache)
      by apply length_map.
    rewrite !Hlen.
    destruct (Nat.ltb_spec ServiceWorker.MAX_IMAGE_CACHE (length cache))
      as [Hover|Hwithin].
    - apply trim_loop; [exact Hnodup | lia].
    - replace (length cache - ServiceWorker.MAX_IMAGE_CACHE)%nat with 0%nat
        by lia.
      reflexivity. }
  split; [exact Htrim|]. rewrite Htrim, length_skipn. lia.
Qed.

Lemma trimImageCache_keeps_newest_witness :
  ServiceWorker.trimImageCache WorkerCases.fullCache
  = skipn (length WorkerCases.fullCache - ServiceWorker.MAX_IMAGE_CACHE)
      WorkerCases.fullCache
  /\ length (ServiceWorker.trimImageCache WorkerCases.fullCache)
     = Nat.min (length WorkerCases.fullCache) ServiceWorker.MAX_IMAGE_CACHE.
Proof.
  apply (trimImageCache_keeps_newest WorkerCases.fullCache).
  unfold ServiceWorker.cache_keys, WorkerCases.fullCache.
  rewrite map_map.
  assert (Hinj : Inj (=) (=) (fun i => (WorkerCases.poster i).1)).
  { intros i j H. cbn [fst WorkerCases.poster] in H.
    apply app_inv_head in H. injection H as H. now apply Nat2N.inj. }
  apply (NoDup_fmap_2 _), NoDup_seq.
Defined.

Section ActivationFacts.

Context {R : Type}.

Lemma activate_loop (cacheNames : list jsstring)
    (caches : gmap jsstring (@ServiceWorker.Cache R)) name :
  foldl (fun caches cacheName =>
           if negb (strictEquals cacheName ServiceWorker.STATIC_CACHE)
              && negb (strictEquals cacheName ServiceWorker.IMAGE_CACHE)
           then base.delete cacheName caches
           else caches) caches cacheNames !! name
  = if negb (strictEquals name ServiceWorker.STATIC_CACHE)
       && negb (strictEquals name ServiceWorker.IMAGE_CACHE)
       && bool_decide (name ∈ cacheNames)
    then None else caches !! name.
Proof.
  revert caches. induction cacheNames as [|n names IH]; intros caches.
  - cbn [foldl]. rewrite bool_decide_eq_false_2 by apply not_elem_of_nil.
    now rewrite andb_false_r.
  - cbn [foldl]. rewrite IH.
    destruct (decide (name = n)) as [->|Hne].
    + rewrite (bool_decide_eq_true_2 (n ∈ n :: names)) by apply list_elem_of_here.
      rewrite andb_true_r.
      destruct (negb _ && negb _) eqn:Eold.
      * cbn [andb]. destruct (bool_decide _); [reflexivity|].
        apply lookup_delete_eq.
      * reflexivity.
    + assert (bool_decide (name ∈ n :: names) = bool_decide (name ∈ names))
        as ->.
      { apply bool_decide_ext. rewrite elem_of_cons. tauto. }
      destruct (_ && bool_decide _); [reflexivity|].
      destruct (negb (strictEquals n _) && negb (strictEquals n _));
        [now rewrite lookup_delete_ne by congruence | reflexivity].
Qed.

End ActivationFacts.

(** After activation the cache storage holds the two caches of the
    current version, untouched if they existed, and no other cache. *)
Lemma activate_keeps_current_caches {R : Type}
    (caches : gmap jsstring (@ServiceWorker.Cache R)) (name : jsstring) :
  ServiceWorker.activate caches !! name
  = if strictEquals name ServiceWorker.STATIC_CACHE
       || strictEquals name ServiceWorker.IMAGE_CACHE
    then caches !! name else None.
Proof.
  unfold ServiceWorker.activate. cbv zeta. rewrite activate_loop.
  destruct (strictEquals name ServiceWorker.STATIC_CACHE);
    [reflexivity|].
  destruct (strictEquals name ServiceWorker.IMAGE_CACHE);
    [reflexivity|].
  cbn [negb andb orb].
  destruct (bool_decide_reflect (name ∈ (map_to_list caches).*1))
    as [Hin|Hout]; [reflexivity|].
  destruct (caches !! name) as [cache|] eqn:E; [|reflexivity].
  exfalso. apply Hout. apply list_elem_of_fmap.
  exists (name, cache). split; [reflexivity|].
  now apply elem_of_map_to_list.
Qed.

(** * The strategy of a request *)

Lemma includes_prefix_of_needle s a b :
  includes s (a ++ b) = true -> includes s a = true.
Proof.
  rewrite !includes_spec. intros (x & y & ->).
  exists x, (b ++ y). now rewrite <- !app_assoc.
Qed.

(** Every entry of [STATIC_URLS] starts with a dot and a slash, and the
    strategy for static resources is chosen by looking for an entry
    inside the request's URL.  A URL without that pair of code units (a
    parsed URL has none in its path) is therefore never served
    stale-while-revalidate. *)
Lemma static_strategy_needs_dot_slash locationOrigin event :
  includes (ServiceWorker.fe_url event) (lit "./") = false ->
  ServiceWorker.onFetch locationOrigin event
  <> ServiceWorker.StaticStaleWhileRevalidate.
Proof.
  intros Hurl. unfold ServiceWorker.onFetch.
  destruct (includes (ServiceWorker.fe_hostname event) _); [discriminate|].
  destruct (_ || _); [discriminate|].
  destruct (_ || _); [discriminate|].
  destruct (existsb _ ServiceWorker.STATIC_URLS) eqn:Estatic.
  - exfalso. apply existsb_exists in Estatic as (staticUrl & Hin & Hinc).
    assert (Hall : Forall (fun staticUrl =>
                             startsWith staticUrl (lit "./") = true)
                     ServiceWorker.STATIC_URLS)
      by (repeat constructor).
    rewrite Forall_forall in Hall.
    destruct (proj1 (startsWith_spec _ _) (Hall staticUrl Hin)) as [rest ->].
    apply includes_prefix_of_needle in Hinc. congruence.
  - destruct (negb _); [discriminate|].
    destruct (negb _); discriminate.
Qed.

Lemma static_strategy_needs_dot_slash_witness :
  ServiceWorker.onFetch (lit "https://tv.example.com") WorkerCases.hlsScript
  <> ServiceWorker.StaticStaleWhileRevalidate.
Proof.
  apply (static_strategy_needs_dot_slash (lit "https://tv.example.com")
           WorkerCases.hlsScript).
  reflexivity.
Defined.
